(** * Stream scheduler (services/schedulerService.js)

    A shallow embedding of the scheduler service: the termination registry
    [scheduledTerminations], the schedule poller [checkScheduledStreams], the
    duration watchdog [checkStreamDurations] and the exported entry points.

    Modelling conventions.
    - JavaScript numbers are IEEE binary64 values: Rocq's primitive floats.
      Values are the primitives undefined, null, booleans, numbers and
      strings; what the host does with a string (ToNumber, Date.parse) is a
      parameter, [Runtime].
    - A Date holds a time value: an integral number of milliseconds of
      magnitude at most 8.64e15, or NaN (the Invalid Date). Such integers are
      below 2^53, so a Date is kept as an integer, and the one sum of the
      source that only involves a time value and an integral constant
      ([now.getTime() + SCHEDULE_LOOKAHEAD_SECONDS * 1000]) is written over Z,
      where the double sum is exact. Sums that involve an arbitrary number
      (a duration) stay in binary64.
    - The module-level variables of the source and the parts of the host the
      code drives (pending timers, console, the calls made to the streaming
      service and to the Stream model, the readings of the clock) form one
      [State], threaded by a state-and-exception monad [M].
    - The streaming service and the Stream model are collaborators: a call
      to either returns a promise that the environment settles, resolved
      with a value or rejected with an error.
    - An [async] function is written as one computation: an [await] is a
      call whose settled promise is supplied by the environment. The host
      can run other callbacks while a function is suspended at an [await];
      this is modelled for the timer closure, split in [closure_begins] and
      [closure_resumes]. What is proved of the registry and the timers is
      stated of any state, under hypotheses on that state, wherever the
      halves of a closure can make a difference.
    - [setTimeout] is recorded with the delay it is given; what the host
      makes of a delay that is not a 32-bit integer is not modelled. *)

From Stdlib Require Import ZArith Floats Lia.
From stdpp Require Import gmap strings list fin_maps.

(** ** JavaScript values *)

Module Js.

(** The primitive values that reach this module: column values of a row
    and arguments of the exported functions. *)
Inductive Val : Type :=
  | Undefined
  | Null
  | Bool (b : bool)
  | Num (x : float)
  | Str (s : string).

Inductive Type_ : Set := TUndefined | TObject | TBoolean | TNumber | TString.

#[global] Instance Type_eq_dec : EqDecision Type_.
Proof. solve_decision. Defined.

Definition typeof (v : Val) : Type_ :=
  match v with
  | Undefined => TUndefined
  | Null => TObject
  | Bool _ => TBoolean
  | Num _ => TNumber
  | Str _ => TString
  end.

(** ToBoolean. *)
Definition truthy (v : Val) : bool :=
  match v with
  | Undefined | Null => false
  | Bool b => b
  | Num x => negb (PrimFloat.is_zero x || PrimFloat.is_nan x)
  | Str s => negb (String.eqb s "")
  end.

(** [Number.isNaN]: no coercion, false on every non-number. *)
Definition Number_isNaN (v : Val) : bool :=
  match v with Num x => PrimFloat.is_nan x | _ => false end.

(** [Math.max] on two numbers: NaN is contagious and +0 is above -0. *)
Definition Math_max (a b : float) : float :=
  if PrimFloat.is_nan a || PrimFloat.is_nan b then nan
  else if (a <? b)%float then b
  else if (b <? a)%float then a
  else if PrimFloat.is_zero a then (a + b)%float
  else a.

(** The integer a finite double denotes once its fraction is dropped. *)
Definition truncate (x : float) : Z :=
  match Prim2SF x with
  | S754_finite s m e =>
      let a := Z.shiftl (Z.pos m) e in
      if s then (- a)%Z else a
  | _ => 0%Z
  end.

(** The double of an integer; exact below 2^53. *)
Definition of_Z (z : Z) : float :=
  if (z <? 0)%Z then (- PrimFloat.of_uint63 (Uint63.of_Z (- z)))%float
  else PrimFloat.of_uint63 (Uint63.of_Z z).

End Js.

(** ** Dates *)

Inductive Date : Set :=
  | InvalidDate
  | DateAt (ms : Z).

Definition MAX_TIME_VALUE : Z := 8640000000000000.

(** TimeClip on an integral sum of time values. *)
Definition Date_of_ms (z : Z) : Date :=
  if (Z.abs z <=? MAX_TIME_VALUE)%Z then DateAt z else InvalidDate.

(** TimeClip on a number: [new Date(x)]. *)
Definition Date_of_number (x : float) : Date :=
  if negb (PrimFloat.is_finite x) then InvalidDate
  else if (Js.of_Z MAX_TIME_VALUE <? PrimFloat.abs x)%float then InvalidDate
  else DateAt (Js.truncate x).

(** [d.getTime()], also what [valueOf] gives to a comparison. *)
Definition getTime (d : Date) : float :=
  match d with
  | InvalidDate => nan
  | DateAt z => Js.of_Z z
  end.

(** [a <= b] on two Date objects compares their time values as numbers. *)
Definition Date_le (a b : Date) : bool := (getTime a <=? getTime b)%float.

(** What the host supplies: the conversions of strings and the clock. *)
Record Runtime : Type := {
  StringToNumber : string -> float;
  Date_parse : string -> float;
  clock : nat -> Z
}.

Definition ToNumber (rt : Runtime) (v : Js.Val) : float :=
  match v with
  | Js.Undefined => nan
  | Js.Null => 0%float
  | Js.Bool b => if b then 1%float else 0%float
  | Js.Num x => x
  | Js.Str s => StringToNumber rt s
  end.

(** [new Date(v)] with one argument. *)
Definition Date_new (rt : Runtime) (v : Js.Val) : Date :=
  match v with
  | Js.Str s => Date_of_number (Date_parse rt s)
  | _ => Date_of_number (ToNumber rt v)
  end.

(** ** Rows, the streaming service and the state of the module *)

Abbreviation StreamId := string (only parsing).
Abbreviation TimerId := nat (only parsing).
Abbreviation JsError := string (only parsing).

Inductive Status : Set := Offline | Scheduled | Live | Error.

#[global] Instance Status_eq_dec : EqDecision Status.
Proof. solve_decision. Defined.

(** A row of the streams table, with the columns this module reads. *)
Record Stream : Type := {
  id : StreamId;
  title : string;
  status : Status;
  schedule_time : option Z;
  start_time : Js.Val;
  duration : Js.Val
}.

(** A settled promise. *)
Inductive Settled (A : Type) : Type :=
  | Resolved (a : A)
  | Rejected (e : JsError).
Arguments Resolved {A} a.
Arguments Rejected {A} e.

Record EngineResult : Set := {
  success : bool;
  error : option string
}.

Inductive EngineCall : Set :=
  | CallStart (i : StreamId)
  | CallStop (i : StreamId).

#[global] Instance EngineCall_eq_dec : EqDecision EngineCall.
Proof. solve_decision. Defined.

(** The streaming service is opaque: each operation settles as a function
    of the calls it has received so far and of the stream asked for. *)
Record StreamingService : Type := {
  startStream : list EngineCall -> StreamId -> Settled EngineResult;
  stopStream : list EngineCall -> StreamId -> Settled EngineResult
}.

(** The closure handed to [setTimeout]: the variables it captured and the
    delay it was given. *)
Record Timer : Set := {
  timer_stream : StreamId;
  timer_minutes : float;
  timer_delay : float
}.

(** One constructor per [console.log] / [console.error] of the source. *)
Inductive LogEvent : Type :=
  | LogAlreadyInitialized
  | LogInitialized
  | ErrNotInitialized
  | LogFound (n : nat)
  | LogStarting (i : StreamId) (t : string)
  | LogStarted (i : StreamId)
  | ErrStartFailed (i : StreamId) (e : option string)
  | ErrCheckingScheduled (e : JsError)
  | LogExceeded (i : StreamId)
  | ErrCheckingDurations (e : JsError)
  | ErrInvalidDuration (i : StreamId) (v : Js.Val)
  | LogScheduling (i : StreamId) (minutes : float)
  | LogTerminating (i : StreamId) (minutes : float)
  | ErrTerminating (i : StreamId) (e : JsError)
  | LogCancelled (i : StreamId).

Inductive Periodic : Set := PollSchedules | WatchDurations.

(** The calls made to models/Stream.js. *)
Inductive Query : Type :=
  | FindScheduledInRange (from to : Date)
  | FindAll (userId : Js.Val) (want : Status).

Record State : Type := {
  streamingService : option StreamingService;
  initialized : bool;
  scheduleIntervalId : option (Periodic * Z);
  durationIntervalId : option (Periodic * Z);
  scheduledTerminations : gmap string nat;
  timers : gmap nat Timer;
  next_timer : TimerId;
  console : list LogEvent;
  engine_calls : list EngineCall;
  queries : list Query;
  clock_reads : nat
}.

Definition SCHEDULE_LOOKAHEAD_SECONDS : Z := 60.

(** The module as loaded, before [init]. *)
Definition initial_state : State := {|
  streamingService := None;
  initialized := false;
  scheduleIntervalId := None;
  durationIntervalId := None;
  scheduledTerminations := ∅;
  timers := ∅;
  next_timer := 0;
  console := [];
  engine_calls := [];
  queries := [];
  clock_reads := 0
|}.

Definition with_registry (f : gmap string nat -> gmap string nat) (st : State) : State := {|
  streamingService := streamingService st;
  initialized := initialized st;
  scheduleIntervalId := scheduleIntervalId st;
  durationIntervalId := durationIntervalId st;
  scheduledTerminations := f (scheduledTerminations st);
  timers := timers st;
  next_timer := next_timer st;
  console := console st;
  engine_calls := engine_calls st;
  queries := queries st;
  clock_reads := clock_reads st
|}.

Definition with_timers (f : gmap nat Timer -> gmap nat Timer) (st : State) : State := {|
  streamingService := streamingService st;
  initialized := initialized st;
  scheduleIntervalId := scheduleIntervalId st;
  durationIntervalId := durationIntervalId st;
  scheduledTerminations := scheduledTerminations st;
  timers := f (timers st);
  next_timer := next_timer st;
  console := console st;
  engine_calls := engine_calls st;
  queries := queries st;
  clock_reads := clock_reads st
|}.

Definition with_next_timer (n : TimerId) (st : State) : State := {|
  streamingService := streamingService st;
  initialized := initialized st;
  scheduleIntervalId := scheduleIntervalId st;
  durationIntervalId := durationIntervalId st;
  scheduledTerminations := scheduledTerminations st;
  timers := timers st;
  next_timer := n;
  console := console st;
  engine_calls := engine_calls st;
  queries := queries st;
  clock_reads := clock_reads st
|}.

Definition with_console (e : LogEvent) (st : State) : State := {|
  streamingService := streamingService st;
  initialized := initialized st;
  scheduleIntervalId := scheduleIntervalId st;
  durationIntervalId := durationIntervalId st;
  scheduledTerminations := scheduledTerminations st;
  timers := timers st;
  next_timer := next_timer st;
  console := console st ++ [e];
  engine_calls := engine_calls st;
  queries := queries st;
  clock_reads := clock_reads st
|}.

Definition with_call (c : EngineCall) (st : State) : State := {|
  streamingService := streamingService st;
  initialized := initialized st;
  scheduleIntervalId := scheduleIntervalId st;
  durationIntervalId := durationIntervalId st;
  scheduledTerminations := scheduledTerminations st;
  timers := timers st;
  next_timer := next_timer st;
  console := console st;
  engine_calls := engine_calls st ++ [c];
  queries := queries st;
  clock_reads := clock_reads st
|}.

Definition with_query (q : Query) (st : State) : State := {|
  streamingService := streamingService st;
  initialized := initialized st;
  scheduleIntervalId := scheduleIntervalId st;
  durationIntervalId := durationIntervalId st;
  scheduledTerminations := scheduledTerminations st;
  timers := timers st;
  next_timer := next_timer st;
  console := console st;
  engine_calls := engine_calls st;
  queries := queries st ++ [q];
  clock_reads := clock_reads st
|}.

Definition with_clock_read (st : State) : State := {|
  streamingService := streamingService st;
  initialized := initialized st;
  scheduleIntervalId := scheduleIntervalId st;
  durationIntervalId := durationIntervalId st;
  scheduledTerminations := scheduledTerminations st;
  timers := timers st;
  next_timer := next_timer st;
  console := console st;
  engine_calls := engine_calls st;
  queries := queries st;
  clock_reads := S (clock_reads st)
|}.

Definition with_service (svc : StreamingService) (st : State) : State := {|
  streamingService := Some svc;
  initialized := true;
  scheduleIntervalId := scheduleIntervalId st;
  durationIntervalId := durationIntervalId st;
  scheduledTerminations := scheduledTerminations st;
  timers := timers st;
  next_timer := next_timer st;
  console := console st;
  engine_calls := engine_calls st;
  queries := queries st;
  clock_reads := clock_reads st
|}.

Definition with_intervals (a b : Periodic * Z) (st : State) : State := {|
  streamingService := streamingService st;
  initialized := initialized st;
  scheduleIntervalId := Some a;
  durationIntervalId := Some b;
  scheduledTerminations := scheduledTerminations st;
  timers := timers st;
  next_timer := next_timer st;
  console := console st;
  engine_calls := engine_calls st;
  queries := queries st;
  clock_reads := clock_reads st
|}.

(** ** The monad of the module's functions *)

Inductive Completion (A : Type) : Type :=
  | Normal (a : A)
  | Throw (e : JsError).
Arguments Normal {A} a.
Arguments Throw {A} e.

Definition M (A : Type) : Type := State -> Completion A * State.

Definition ret {A} (a : A) : M A := fun st => (Normal a, st).

Definition throw {A} (e : JsError) : M A := fun st => (Throw e, st).

Definition bind {A B} (m : M A) (k : A -> M B) : M B :=
  fun st =>
    match m st with
    | (Normal a, st') => k a st'
    | (Throw e, st') => (Throw e, st')
    end.

(** [try { body } catch (error) { handler }]. *)
Definition try_catch {A} (body : M A) (handler : JsError -> M A) : M A :=
  fun st =>
    match body st with
    | (Normal a, st') => (Normal a, st')
    | (Throw e, st') => handler e st'
    end.

Notation "'let*' x ':=' e 'in' k" := (bind e (fun x => k))
  (at level 10, x name, e at level 100, k at level 200).
Notation "e '>>' k" := (bind e (fun _ => k))
  (at level 90, right associativity).

(** [for (const x of l) body]. *)
Fixpoint for_of {A} (l : list A) (body : A -> M unit) : M unit :=
  match l with
  | [] => ret tt
  | x :: l' => body x >> for_of l' body
  end.

Definition await {A} (p : Settled A) : M A :=
  match p with
  | Resolved a => ret a
  | Rejected e => throw e
  end.

Definition get {A} (f : State -> A) : M A := fun st => (Normal (f st), st).

Definition modify (f : State -> State) : M unit := fun st => (Normal tt, f st).

Definition console_log (e : LogEvent) : M unit := modify (with_console e).
Definition console_error (e : LogEvent) : M unit := modify (with_console e).

(** [new Date()]: the next reading of the clock. *)
Definition Date_now (rt : Runtime) : M Z :=
  fun st => (Normal (clock rt (clock_reads st)), with_clock_read st).

(** [setTimeout(callback, ms)] queues the closure under a fresh handle. *)
Definition setTimeout (t : Timer) : M TimerId :=
  fun st =>
    let h := next_timer st in
    (Normal h, with_next_timer (S h) (with_timers (insert h t) st)).

Definition clearTimeout (h : TimerId) : M unit := modify (with_timers (delete h)).

(** [streamingService.startStream(id)] / [stopStream(id)]; reading a
    property of [null] is a TypeError. *)
Definition call_startStream (i : StreamId) : M EngineResult :=
  fun st =>
    match streamingService st with
    | None => (Throw "TypeError", st)
    | Some svc => await (startStream svc (engine_calls st) i) (with_call (CallStart i) st)
    end.

Definition call_stopStream (i : StreamId) : M EngineResult :=
  fun st =>
    match streamingService st with
    | None => (Throw "TypeError", st)
    | Some svc => await (stopStream svc (engine_calls st) i) (with_call (CallStop i) st)
    end.

(** ** models/Stream.js, as this module calls it *)

(** The two queries of the Stream model that the scheduler awaits. A value
    of this type is the model over the table as it stands at one tick. *)
Record StreamModel : Type := {
  findScheduledInRange : Date -> Date -> Settled (list Stream);
  findAll : Js.Val -> Status -> Settled (list Stream)
}.

Definition due_in_range (from to : Date) (s : Stream) : bool :=
  match status s, schedule_time s, from, to with
  | Scheduled, Some t, DateAt a, DateAt b => (a <=? t)%Z && (t <=? b)%Z
  | _, _, _, _ => false
  end.

Definition has_status (want : Status) (s : Stream) : bool :=
  bool_decide (status s = want).

(** Modelled from the spec: the bodies of [Stream.findScheduledInRange] and
    [Stream.findAll] (models/Stream.js) are not among the sources. The spec
    gives the first as "broadcasts with status = scheduled and
    scheduled_time in [from, to]" and the second, called with the live
    status, as "broadcasts with status = live". *)
Definition Stream_over (rows : list Stream) : StreamModel := {|
  findScheduledInRange := fun from to => Resolved (List.filter (due_in_range from to) rows);
  findAll := fun _ want => Resolved (List.filter (has_status want) rows)
|}.

Definition call_findScheduledInRange (db : StreamModel) (from to : Date) : M (list Stream) :=
  fun st =>
    await (findScheduledInRange db from to) (with_query (FindScheduledInRange from to) st).

Definition call_findAll (db : StreamModel) (userId : Js.Val) (want : Status) : M (list Stream) :=
  fun st => await (findAll db userId want) (with_query (FindAll userId want) st).

(** ** services/schedulerService.js *)

Section Scheduler.

Context (rt : Runtime).

Definition scheduleStreamTermination
    (streamId : StreamId) (durationMinutes : Js.Val) : M unit :=
  let* svc := get streamingService in
  match svc with
  | None => console_error ErrNotInitialized
  | Some _ =>
      if negb (bool_decide (Js.typeof durationMinutes = Js.TNumber))
         || Js.Number_isNaN durationMinutes
      then console_error (ErrInvalidDuration streamId durationMinutes)
      else
        let* pending := get (fun st => scheduledTerminations st !! streamId) in
        match pending with
        | Some h => clearTimeout h
        | None => ret tt
        end >>
        let clampedMinutes := Js.Math_max 0 (ToNumber rt durationMinutes) in
        let durationMs := (clampedMinutes * 60 * 1000)%float in
        console_log (LogScheduling streamId clampedMinutes) >>
        let* timeoutId :=
          setTimeout {| timer_stream := streamId;
                        timer_minutes := clampedMinutes;
                        timer_delay := durationMs |} in
        modify (with_registry (insert streamId timeoutId))
  end.

(** The body of the closure armed by [scheduleStreamTermination]. *)
Definition terminate (streamId : StreamId) (clampedMinutes : float) : M unit :=
  try_catch
    (console_log (LogTerminating streamId clampedMinutes) >>
     let* _ := call_stopStream streamId in
     modify (with_registry (delete streamId)))
    (fun error => console_error (ErrTerminating streamId error)).

(** The event loop runs a pending timer: it leaves the queue, then its
    closure runs. A handle that is not pending does nothing. *)
Definition fire (h : TimerId) : M unit :=
  let* t := get (fun st => timers st !! h) in
  match t with
  | None => ret tt
  | Some t =>
      modify (with_timers (delete h)) >>
      terminate (timer_stream t) (timer_minutes t)
  end.

Definition cancelStreamTermination (streamId : StreamId) : M bool :=
  let* pending := get (fun st => scheduledTerminations st !! streamId) in
  match pending with
  | Some h =>
      clearTimeout h >>
      modify (with_registry (delete streamId)) >>
      console_log (LogCancelled streamId) >>
      ret true
  | None => ret false
  end.

Definition handleStreamStopped (streamId : StreamId) : M bool :=
  cancelStreamTermination streamId.

(** The body of the loop of [checkScheduledStreams]. *)
Definition start_scheduled (stream : Stream) : M unit :=
  console_log (LogStarting (id stream) (title stream)) >>
  let* result := call_startStream (id stream) in
  if success result then console_log (LogStarted (id stream))
  else console_error (ErrStartFailed (id stream) (error result)).

Definition checkScheduledStreams (db : StreamModel) : M unit :=
  try_catch
    (let* svc := get streamingService in
     match svc with
     | None => console_error ErrNotInitialized
     | Some _ =>
         let* now := Date_now rt in
         let lookAheadTime :=
           Date_of_ms (now + SCHEDULE_LOOKAHEAD_SECONDS * 1000) in
         let* streams := call_findScheduledInRange db (DateAt now) lookAheadTime in
         if (0 <? length streams)%nat then
           console_log (LogFound (length streams)) >>
           for_of streams start_scheduled
         else ret tt
     end)
    (fun error => console_error (ErrCheckingScheduled error)).

(** The body of the loop of [checkStreamDurations]. *)
Definition check_duration (stream : Stream) : M unit :=
  let* armed := get (fun st => scheduledTerminations st !! id stream) in
  if Js.truthy (duration stream) && Js.truthy (start_time stream)
     && negb (bool_decide (is_Some armed))
  then
    let startTime := Date_new rt (start_time stream) in
    let durationMs := (ToNumber rt (duration stream) * 60 * 1000)%float in
    let shouldEndAt := Date_of_number (getTime startTime + durationMs)%float in
    let* now := Date_now rt in
    if Date_le shouldEndAt (DateAt now) then
      console_log (LogExceeded (id stream)) >>
      let* _ := call_stopStream (id stream) in
      ret tt
    else
      let timeUntilEnd := (getTime shouldEndAt - getTime (DateAt now))%float in
      scheduleStreamTermination (id stream) (Js.Num (timeUntilEnd / 60000)%float)
  else ret tt.

Definition checkStreamDurations (db : StreamModel) : M unit :=
  try_catch
    (let* svc := get streamingService in
     match svc with
     | None => console_error ErrNotInitialized
     | Some _ =>
         let* liveStreams := call_findAll db Js.Null Live in
         for_of liveStreams check_duration
     end)
    (fun error => console_error (ErrCheckingDurations error)).

(** [init]; the two ticks it starts at once run one after the other over
    the table as it stands. *)
Definition init (streamingServiceInstance : StreamingService) (db : StreamModel) : M unit :=
  let* already := get initialized in
  if already then console_log LogAlreadyInitialized
  else
    modify (with_service streamingServiceInstance) >>
    console_log LogInitialized >>
    modify (with_intervals (PollSchedules, 60 * 1000)%Z (WatchDurations, 60 * 1000)%Z) >>
    checkScheduledStreams db >>
    checkStreamDurations db.

(** The state after a run, whatever it completed with. *)
Definition exec {A} (m : M A) (st : State) : State := snd (m st).

(** A run of watchdog ticks, one model of the table per tick. *)
Fixpoint watchdog_ticks (dbs : list StreamModel) (st : State) : State :=
  match dbs with
  | [] => st
  | db :: dbs' => watchdog_ticks dbs' (exec (checkStreamDurations db) st)
  end.

End Scheduler.

(** ** Runs of the module *)

(** What can happen to the module between two moments: [init], a tick of
    either periodic task, a pending timer coming due, or a call of one of the
    exported functions. Each is taken whole: an asynchronous function runs
    to its end, the calls it awaits settling on the spot. *)
Inductive Event : Type :=
  | Init (svc : StreamingService) (db : StreamModel)
  | PollerTick (db : StreamModel)
  | WatchdogTick (db : StreamModel)
  | TimerFires (h : TimerId)
  | Arm (i : StreamId) (v : Js.Val)
  | Cancel (i : StreamId)
  | Stopped (i : StreamId).

Definition react (rt : Runtime) (ev : Event) : State -> State :=
  match ev with
  | Init svc db => exec (init rt svc db)
  | PollerTick db => exec (checkScheduledStreams rt db)
  | WatchdogTick db => exec (checkStreamDurations rt db)
  | TimerFires h => exec (fire h)
  | Arm i v => exec (scheduleStreamTermination rt i v)
  | Cancel i => exec (cancelStreamTermination i)
  | Stopped i => exec (handleStreamStopped i)
  end.

Definition run (rt : Runtime) (evs : list Event) (st : State) : State :=
  fold_left (fun st ev => react rt ev st) evs st.

(** The registry and the queue of pending timers agree: every pending timer
    is the one registered for its stream, every handle in use is below the
    next one, and an entry exists only once the service is set. *)
Record coherent (st : State) : Prop := {
  timer_registered :
    forall h t, timers st !! h = Some t ->
      scheduledTerminations st !! timer_stream t = Some h;
  timer_below_next :
    forall h t, timers st !! h = Some t -> h < next_timer st;
  entry_below_next :
    forall i h, scheduledTerminations st !! i = Some h -> h < next_timer st;
  entry_needs_service :
    forall i h, scheduledTerminations st !! i = Some h ->
      is_Some (streamingService st)
}.

Definition keeps_coherent (st st' : State) : Prop := coherent st -> coherent st'.

(** The states that runs of whole events lead to from load. The host can
    also run a callback between the two halves of an asynchronous function
    suspended at an [await]; [interleaved], below, adds the case of the timer
    closure, and [coherent] does not hold of all the states it leads to. *)
Definition reachable (rt : Runtime) (st : State) : Prop :=
  exists evs, st = run rt evs initial_state.

(** [m] relates every state to the state it leaves, by [R]. *)
Definition stable {A} (R : State -> State -> Prop) (m : M A) : Prop :=
  forall st, R st (exec m st).

(** Stream [i] is left alone between [st] and [st']: its entry is the same,
    no timer for it is new, and no stop was asked for it. *)
Definition untouched (i : StreamId) (st st' : State) : Prop :=
  scheduledTerminations st' !! i = scheduledTerminations st !! i
  /\ (forall h t, timers st' !! h = Some t -> timer_stream t = i ->
        timers st !! h = Some t)
  /\ exists calls, engine_calls st' = engine_calls st ++ calls
                   /\ CallStop i ∉ calls.

(** The service set by [init] is still the one in place. *)
Definition same_service (st st' : State) : Prop :=
  streamingService st' = streamingService st.

(** No query was made to the Stream model in between. *)
Definition same_queries (st st' : State) : Prop := queries st' = queries st.

(** The gate of the watchdog's loop on the two columns of a row. *)
Definition limited (s : Stream) : bool :=
  Js.truthy (duration s) && Js.truthy (start_time s).

(** [shouldEndAt] as [check_duration] computes it. *)
Definition expiry (rt : Runtime) (s : Stream) : Date :=
  Date_of_number
    (getTime (Date_new rt (start_time s)) + ToNumber rt (duration s) * 60 * 1000)%float.

(** The start calls a tick makes when it goes through the whole of [l]. *)
Definition start_calls (l : list Stream) : list EngineCall :=
  (fun s => CallStart (id s)) <$> l.

Definition settles {A} (p : Settled A) : Prop :=
  match p with Resolved _ => True | Rejected _ => False end.

(** What [init] sets up is as it was. *)
Definition same_setup (st st' : State) : Prop :=
  streamingService st' = streamingService st
  /\ initialized st' = initialized st
  /\ scheduleIntervalId st' = scheduleIntervalId st
  /\ durationIntervalId st' = durationIntervalId st.

(** The registry, the queue of timers and the next handle are as they were. *)
Definition same_registry (st st' : State) : Prop :=
  scheduledTerminations st' = scheduledTerminations st
  /\ timers st' = timers st
  /\ next_timer st' = next_timer st.

(** Between [st] and [st'] the service was only asked calls that satisfy [P]. *)
Definition only_calls (P : EngineCall -> Prop) (st st' : State) : Prop :=
  exists calls, engine_calls st' = engine_calls st ++ calls /\ Forall P calls.

Definition is_start (c : EngineCall) : Prop :=
  match c with CallStart _ => True | CallStop _ => False end.

Definition is_stop (c : EngineCall) : Prop :=
  match c with CallStop _ => True | CallStart _ => False end.

(** What a poller tick can change: neither registry nor timers, and the
    service hears nothing but starts. *)
Definition poller_frame (st st' : State) : Prop :=
  same_registry st st' /\ only_calls is_start st st'.

(** [m] completes normally from every state: no exception leaves it. *)
Definition returns {A} (m : M A) : Prop :=
  forall st, exists a st', m st = (Normal a, st').

Definition is_Init (ev : Event) : bool :=
  match ev with Init _ _ => true | _ => false end.

(** The module as loaded, with nothing armed, asked or read. *)
Definition dormant (st : State) : Prop :=
  streamingService st = None
  /\ initialized st = false
  /\ scheduledTerminations st = ∅
  /\ timers st = ∅
  /\ engine_calls st = []
  /\ queries st = [].

(** What watchdog ticks keep of a coherent state: coherence, every entry,
    every pending timer; and the service hears nothing but stops, none of
    them for a stream that had an entry. *)
Definition watchdog_frame (st st' : State) : Prop :=
  coherent st ->
  coherent st'
  /\ (forall i h, scheduledTerminations st !! i = Some h ->
        scheduledTerminations st' !! i = Some h)
  /\ (forall h t, timers st !! h = Some t -> timers st' !! h = Some t)
  /\ only_calls
       (fun c => exists i, c = CallStop i /\ scheduledTerminations st !! i = None)
       st st'.


(** Every pending timer for stream [i] is the one its entry names. *)
Definition only_registered (i : StreamId) (st : State) : Prop :=
  forall h t, timers st !! h = Some t -> timer_stream t = i ->
    scheduledTerminations st !! i = Some h.

(** The start calls that the loop of [checkScheduledStreams] makes over
    [l], after the calls [hist], all settle: every turn's call is answered
    with a result, so that the loop goes on to the next row. *)
Fixpoint settle_through (svc : StreamingService) (hist : list EngineCall)
    (l : list Stream) : Prop :=
  match l with
  | [] => True
  | s :: l' =>
      settles (startStream svc hist (id s))
      /\ settle_through svc (hist ++ [CallStart (id s)]) l'
  end.

(** Console and calls of [st'] are those of [st] and what came after. *)
Definition grows (st st' : State) : Prop :=
  (exists k, console st' = console st ++ k)
  /\ exists more, engine_calls st' = engine_calls st ++ more.

(** ** The timer closure across its await *)

(** [fire] runs the closure of [scheduleStreamTermination] in one piece. The
    host runs it in two: from the timer coming due to the [await], where the
    stop call has been made and the closure is suspended, and from the
    moment the call settles. Callbacks and exported calls can run in
    between. *)
Definition closure_begins (h : TimerId) (st : State) : State :=
  match timers st !! h with
  | None => st
  | Some t =>
      let st1 :=
        with_console (LogTerminating (timer_stream t) (timer_minutes t))
          (with_timers (delete h) st) in
      match streamingService st1 with
      | None => with_console (ErrTerminating (timer_stream t) "TypeError") st1
      | Some _ => with_call (CallStop (timer_stream t)) st1
      end
  end.

Definition closure_resumes (streamId : StreamId) (answer : Settled EngineResult)
    (st : State) : State :=
  match answer with
  | Resolved _ => with_registry (delete streamId) st
  | Rejected error => with_console (ErrTerminating streamId error) st
  end.

(** A whole event, or one half of a timer closure. *)
Inductive Moment : Type :=
  | Whole (ev : Event)
  | Begins (h : TimerId)
  | Resumes (i : StreamId) (answer : Settled EngineResult).

Definition happen (rt : Runtime) (m : Moment) : State -> State :=
  match m with
  | Whole ev => react rt ev
  | Begins h => closure_begins h
  | Resumes i answer => closure_resumes i answer
  end.

Definition interleaved (rt : Runtime) (ms : list Moment) (st : State) : State :=
  fold_left (fun st m => happen rt m st) ms st.

(** Every handle in use was issued: it is below the next one. *)
Definition fresh (st : State) : Prop :=
  (forall h t, timers st !! h = Some t -> h < next_timer st)
  /\ (forall i h, scheduledTerminations st !! i = Some h -> h < next_timer st).

Definition keeps_fresh (st st' : State) : Prop := fresh st -> fresh st'.

(** ** Concrete services, tables and states *)

Module Fixture.

Open Scope string_scope.

(** One timestamp is understood; the clock starts an hour after it and
    advances one second a reading. *)
Definition t0 : string := "2023-11-14T22:13:20.000Z".

Definition rt : Runtime := {|
  StringToNumber := fun _ => nan;
  Date_parse := fun s => if String.eqb s t0 then 1700000000000%float else nan;
  clock := fun n => (1700003600000 + 1000 * Z.of_nat n)%Z
|}.

Definition ok : EngineResult := {| success := true; error := None |}.

Definition unreachable : EngineResult :=
  {| success := false; error := Some "rtmp unreachable" |}.

Definition healthy : StreamingService := {|
  startStream := fun _ _ => Resolved ok;
  stopStream := fun _ _ => Resolved ok
|}.

(** Every stop is rejected. *)
Definition stop_rejects : StreamingService := {|
  startStream := fun _ _ => Resolved ok;
  stopStream := fun _ _ => Rejected "stop failed"
|}.

(** The start of "C" reports a failure in its result. *)
Definition start_reports_C : StreamingService := {|
  startStream := fun _ i => if String.eqb i "C" then Resolved unreachable else Resolved ok;
  stopStream := fun _ _ => Resolved ok
|}.

(** The start of "C" is rejected. *)
Definition start_rejects_C : StreamingService := {|
  startStream := fun _ i => if String.eqb i "C" then Rejected "rtmp unreachable" else Resolved ok;
  stopStream := fun _ _ => Resolved ok
|}.

Definition scheduled_at (i : StreamId) (t : Z) : Stream := {|
  id := i; title := i; status := Scheduled; schedule_time := Some t;
  start_time := Js.Null; duration := Js.Null
|}.

Definition live (i : StreamId) (started : Js.Val) (minutes : Js.Val) : Stream := {|
  id := i; title := i; status := Live; schedule_time := None;
  start_time := started; duration := minutes
|}.

(** "A" went live at [t0] for ten minutes, "B" for two hours. *)
Definition live_A : Stream := live "A" (Js.Str t0) (Js.Num 10).
Definition live_B : Stream := live "B" (Js.Str t0) (Js.Num 120).

(** "C" and "D" are due thirty seconds after the first reading of the
    clock that follows [init]. *)
Definition due_C : Stream := scheduled_at "C" 1700003631000.
Definition due_D : Stream := scheduled_at "D" 1700003631000.

(** Rows at the edges of the window of the tick that follows [init], whose
    reading of the clock is 1700003601000. *)
Definition at_now : Stream := scheduled_at "now" 1700003601000.
Definition at_horizon : Stream := scheduled_at "horizon" 1700003661000.
Definition past_horizon : Stream := scheduled_at "late" 1700003662000.

(** "U" is live with no duration, "Z" with the duration 0. *)
Definition live_U : Stream := live "U" (Js.Str t0) Js.Null.
Definition live_Z : Stream := live "Z" (Js.Str t0) (Js.Num 0).

(** The module after [init] over an empty table. *)
Definition ready (svc : StreamingService) : State :=
  exec (init rt svc (Stream_over [])) initial_state.

(** ... and after arming "A" for ten minutes. *)
Definition armed (svc : StreamingService) : State :=
  exec (scheduleStreamTermination rt "A" (Js.Num 10)) (ready svc).

(** A Stream model whose queries are both rejected. *)
Definition broken : StreamModel := {|
  findScheduledInRange := fun _ _ => Rejected "SQLITE_BUSY";
  findAll := fun _ _ => Rejected "SQLITE_BUSY"
|}.

(** "E" went live at [t0] for half an hour. *)
Definition live_E : Stream := live "E" (Js.Str t0) (Js.Num 30).

(** "X" is live for ten minutes with a start time the host cannot read. *)
Definition live_X : Stream := live "X" (Js.Str "not a date") (Js.Num 10).

End Fixture.

(** * Properties *)

(** ** Numbers *)

Lemma SFcompare_refl (x : spec_float) :
  x <> S754_nan -> SFcompare x x = Some Eq.
Proof.
  destruct x as [s|s| |s m e]; simpl; try congruence; intros _.
  - destruct s; reflexivity.
  - rewrite Z.compare_refl, Pos.compare_cont_refl. destruct s; reflexivity.
Qed.

(** A number at or below zero is not NaN. *)
Lemma nonpositive_not_nan (d : float) :
  (d <=? 0)%float = true -> PrimFloat.is_nan d = false.
Proof.
  intros H. rewrite FloatAxioms.leb_spec in H.
  unfold PrimFloat.is_nan. rewrite FloatAxioms.eqb_spec. unfold SFeqb.
  destruct (Prim2SF d) eqn:E; try discriminate H;
    rewrite SFcompare_refl by discriminate; reflexivity.
Qed.

(** [Math.max(0, d)] is +0 for every [d] at or below zero, -0 and
    -Infinity included. *)
Lemma Math_max_nonpositive (d : float) :
  (d <=? 0)%float = true -> Js.Math_max 0 d = 0%float.
Proof.
  intros H. rewrite FloatAxioms.leb_spec in H.
  change (Prim2SF 0) with (S754_zero false) in H.
  pose proof (SF2Prim_Prim2SF d) as Hd.
  destruct (Prim2SF d) as [s|s| |s m e] eqn:E.
  - subst d. destruct s; vm_compute; reflexivity.
  - subst d. destruct s; [vm_compute; reflexivity | discriminate H].
  - discriminate H.
  - destruct s; [| discriminate H]. clear Hd.
    unfold Js.Math_max, PrimFloat.is_nan, PrimFloat.is_zero.
    rewrite !FloatAxioms.eqb_spec, !FloatAxioms.ltb_spec, E.
    change (Prim2SF 0) with (S754_zero false).
    unfold SFeqb, SFltb. rewrite !SFcompare_refl by discriminate. reflexivity.
Qed.

(** ** The termination registry *)

Section Registry.

Context (rt : Runtime).

(** What a call that passes both guards does, step by step. *)
Lemma scheduleStreamTermination_arms (st : State) (svc : StreamingService)
    (i : StreamId) (d : float) :
  streamingService st = Some svc ->
  PrimFloat.is_nan d = false ->
  scheduleStreamTermination rt i (Js.Num d) st =
    (Normal tt,
     with_registry (insert i (next_timer st))
       (with_next_timer (S (next_timer st))
          (with_timers
             (insert (next_timer st)
                {| timer_stream := i;
                   timer_minutes := Js.Math_max 0 d;
                   timer_delay := (Js.Math_max 0 d * 60 * 1000)%float |})
             (with_console (LogScheduling i (Js.Math_max 0 d))
                (match scheduledTerminations st !! i with
                 | Some h => with_timers (delete h) st
                 | None => st
                 end))))).
Proof.
  intros Hsvc Hnan.
  unfold scheduleStreamTermination, bind, get. rewrite Hsvc. simpl.
  rewrite Hnan. simpl.
  destruct (scheduledTerminations st !! i); reflexivity.
Qed.

(** C8: for an id with no pending entry, [cancelStreamTermination] returns
    false and leaves the whole state as it was; for an id whose entry holds
    handle [h], it cancels that delayed action, removes the entry, logs,
    and returns true. [handleStreamStopped] is the same function. *)
Theorem cancelStreamTermination_spec (st : State) (i : StreamId) :
  handleStreamStopped i st = cancelStreamTermination i st
  /\ match scheduledTerminations st !! i with
     | None => cancelStreamTermination i st = (Normal false, st)
     | Some h =>
         exists st',
           cancelStreamTermination i st = (Normal true, st')
           /\ scheduledTerminations st' = delete i (scheduledTerminations st)
           /\ timers st' = delete h (timers st)
           /\ console st' = console st ++ [LogCancelled i]
           /\ engine_calls st' = engine_calls st
           /\ next_timer st' = next_timer st
           /\ streamingService st' = streamingService st
     end.
Proof.
  split; [reflexivity |].
  unfold cancelStreamTermination, bind, get. simpl.
  destruct (scheduledTerminations st !! i) as [h|]; [| reflexivity].
  eexists. split; [reflexivity |]. repeat split.
Qed.

(** C4, amended: when [delayMinutes] is not of type number, or is NaN,
    [scheduleStreamTermination] only logs: the state it leaves is the state
    it found with one more console line, so no delayed action is queued or
    cancelled and the registry is as before. *)
Theorem scheduleStreamTermination_rejects (st : State) (i : StreamId) (v : Js.Val) :
  Js.typeof v <> Js.TNumber \/ Js.Number_isNaN v = true ->
  exists e,
    scheduleStreamTermination rt i v st = (Normal tt, with_console e st)
    /\ (e = ErrNotInitialized \/ e = ErrInvalidDuration i v)
    /\ scheduledTerminations (with_console e st) = scheduledTerminations st
    /\ timers (with_console e st) = timers st
    /\ next_timer (with_console e st) = next_timer st
    /\ engine_calls (with_console e st) = engine_calls st.
Proof.
  intros Hv. unfold scheduleStreamTermination, bind, get. simpl.
  destruct (streamingService st).
  - exists (ErrInvalidDuration i v).
    assert (negb (bool_decide (Js.typeof v = Js.TNumber)) || Js.Number_isNaN v = true)
      as ->.
    { destruct Hv as [Hv | Hv].
      - rewrite bool_decide_eq_false_2 by exact Hv. reflexivity.
      - rewrite Hv. apply orb_true_r. }
    repeat split. right. reflexivity.
  - exists ErrNotInitialized. repeat split. left. reflexivity.
Qed.

(** C7: with the service set, a number at or below zero is not rejected:
    the delay is clamped to zero, a zero-delay action is queued under the
    next handle and the registry records that handle for the id. *)
Theorem scheduleStreamTermination_clamps (st : State) (svc : StreamingService)
    (i : StreamId) (d : float) :
  streamingService st = Some svc ->
  (d <=? 0)%float = true ->
  exists st',
    scheduleStreamTermination rt i (Js.Num d) st = (Normal tt, st')
    /\ scheduledTerminations st' !! i = Some (next_timer st)
    /\ timers st' !! next_timer st =
         Some {| timer_stream := i; timer_minutes := 0; timer_delay := 0 |}
    /\ console st' = console st ++ [LogScheduling i 0].
Proof.
  intros Hsvc Hd.
  rewrite (scheduleStreamTermination_arms st svc i d Hsvc (nonpositive_not_nan d Hd)).
  rewrite (Math_max_nonpositive d Hd).
  eexists. split; [reflexivity |]. simpl.
  split; [apply lookup_insert_eq |].
  split; [rewrite lookup_insert_eq; reflexivity |].
  destruct (scheduledTerminations st !! i); reflexivity.
Qed.

End Registry.

(** ** Relating the state before and after a computation *)

Section Stable.

Context {R : State -> State -> Prop} `{!PreOrder R}.

Lemma stable_ret {A} (a : A) : stable R (ret a).
Proof. intros st. reflexivity. Qed.

Lemma stable_throw {A} (e : JsError) : stable R (@throw A e).
Proof. intros st. reflexivity. Qed.

Lemma stable_get {A} (f : State -> A) : stable R (get f).
Proof. intros st. reflexivity. Qed.

Lemma stable_await {A} (p : Settled A) : stable R (await p).
Proof. destruct p; [apply stable_ret | apply stable_throw]. Qed.

Lemma stable_modify (f : State -> State) :
  (forall st, R st (f st)) -> stable R (modify f).
Proof. intros Hf st. apply Hf. Qed.

Lemma stable_bind {A B} (m : M A) (k : A -> M B) :
  stable R m -> (forall a, stable R (k a)) -> stable R (bind m k).
Proof.
  intros Hm Hk st. specialize (Hm st). unfold exec, bind in *.
  destruct (m st) as [[a | e] st1]; simpl in *; [| exact Hm].
  etransitivity; [exact Hm | apply Hk].
Qed.

Lemma stable_try_catch {A} (body : M A) (handler : JsError -> M A) :
  stable R body -> (forall e, stable R (handler e)) ->
  stable R (try_catch body handler).
Proof.
  intros Hb Hh st. specialize (Hb st). unfold exec, try_catch in *.
  destruct (body st) as [[a | e] st1]; simpl in *; [exact Hb |].
  etransitivity; [exact Hb | apply Hh].
Qed.

Lemma stable_for_of {A} (l : list A) (body : A -> M unit) :
  (forall x, x ∈ l -> stable R (body x)) -> stable R (for_of l body).
Proof.
  induction l as [| x l IH]; intros Hbody; simpl.
  - apply stable_ret.
  - apply stable_bind.
    + apply Hbody. left.
    + intros _. apply IH. intros y Hy. apply Hbody. right. exact Hy.
Qed.

(** After an awaited call of the service or of the model, whose trace is
    all that [R] has to tolerate. *)
Lemma stable_call_stopStream (i : StreamId) :
  (forall st, R st (with_call (CallStop i) st)) -> stable R (call_stopStream i).
Proof.
  intros Hc st. unfold exec, call_stopStream.
  destruct (streamingService st); [| reflexivity].
  destruct (stopStream _ _ _); apply Hc.
Qed.

Lemma stable_call_startStream (i : StreamId) :
  (forall st, R st (with_call (CallStart i) st)) -> stable R (call_startStream i).
Proof.
  intros Hc st. unfold exec, call_startStream.
  destruct (streamingService st); [| reflexivity].
  destruct (startStream _ _ _); apply Hc.
Qed.

Lemma stable_call_findScheduledInRange (db : StreamModel) (a b : Date) :
  (forall q st, R st (with_query q st)) ->
  stable R (call_findScheduledInRange db a b).
Proof.
  intros Hq st. unfold exec, call_findScheduledInRange.
  destruct (findScheduledInRange _ _ _); apply Hq.
Qed.

Lemma stable_call_findAll (db : StreamModel) (u : Js.Val) (w : Status) :
  (forall q st, R st (with_query q st)) -> stable R (call_findAll db u w).
Proof.
  intros Hq st. unfold exec, call_findAll.
  destruct (findAll _ _ _); apply Hq.
Qed.

(** [stable_bind], with the continuation only met on what [m] returns. *)
Lemma stable_bind_run {A B} (m : M A) (k : A -> M B) :
  stable R m ->
  (forall st a st', m st = (Normal a, st') -> R st' (exec (k a) st')) ->
  stable R (bind m k).
Proof.
  intros Hm Hk st. specialize (Hm st). unfold exec, bind in *.
  destruct (m st) as [[a | e] st1] eqn:Hrun; simpl in *; [| exact Hm].
  etransitivity; [exact Hm | eapply Hk, Hrun].
Qed.

End Stable.

(** ** Registry and timers stay coherent *)

#[local] Instance keeps_coherent_preorder : PreOrder keeps_coherent.
Proof. split; [intros st H; exact H | intros a b c Hab Hbc H; auto]. Qed.

Lemma coherent_initial : coherent initial_state.
Proof. split; simpl; intros; simplify_map_eq. Qed.

(** A step that leaves timers, registry and next handle alone, and does
    not unset the service, keeps coherence. *)
Lemma coherent_frame (st st' : State) :
  timers st' = timers st ->
  scheduledTerminations st' = scheduledTerminations st ->
  next_timer st' = next_timer st ->
  (is_Some (streamingService st) -> is_Some (streamingService st')) ->
  keeps_coherent st st'.
Proof.
  intros Ht Hr Hn Hs [H1 H2 H3 H4].
  split; rewrite ?Ht, ?Hr, ?Hn; eauto.
Qed.

Lemma coherent_console (e : LogEvent) (st : State) : keeps_coherent st (with_console e st).
Proof. apply coherent_frame; auto. Qed.

Lemma coherent_call (c : EngineCall) (st : State) : keeps_coherent st (with_call c st).
Proof. apply coherent_frame; auto. Qed.

Lemma coherent_query (q : Query) (st : State) : keeps_coherent st (with_query q st).
Proof. apply coherent_frame; auto. Qed.

Lemma coherent_clock (st : State) : keeps_coherent st (with_clock_read st).
Proof. apply coherent_frame; auto. Qed.

Lemma coherent_service (svc : StreamingService) (st : State) :
  keeps_coherent st (with_service svc st).
Proof. apply coherent_frame; simpl; eauto. Qed.

Lemma coherent_intervals (a b : Periodic * Z) (st : State) :
  keeps_coherent st (with_intervals a b st).
Proof. apply coherent_frame; auto. Qed.

(** Queueing a fresh timer for [i] in place of the registered one. *)
Lemma coherent_rearm (st : State) (i : StreamId) (t : Timer) :
  timer_stream t = i ->
  is_Some (streamingService st) ->
  coherent st ->
  coherent
    (with_registry (insert i (next_timer st))
       (with_next_timer (S (next_timer st))
          (with_timers (insert (next_timer st) t)
             (match scheduledTerminations st !! i with
              | Some h => with_timers (delete h) st
              | None => st
              end)))).
Proof.
  intros Ht Hsvc [H1 H2 H3 H4].
  assert (forall h' t',
             timers (match scheduledTerminations st !! i with
                     | Some h => with_timers (delete h) st
                     | None => st
                     end) !! h' = Some t' ->
             timers st !! h' = Some t' /\ timer_stream t' <> i) as Hold.
  { intros h' t' Hl. destruct (scheduledTerminations st !! i) as [h |] eqn:Hi; simpl in Hl.
    - apply lookup_delete_Some in Hl as [Hne Hl]. split; [exact Hl |].
      intros Heq. apply H1 in Hl. rewrite Heq, Hi in Hl. congruence.
    - split; [exact Hl |]. intros Heq. apply H1 in Hl. rewrite Heq, Hi in Hl. congruence. }
  assert (scheduledTerminations (match scheduledTerminations st !! i with
                     | Some h => with_timers (delete h) st
                     | None => st
                     end) = scheduledTerminations st) as Hreg
    by (destruct (scheduledTerminations st !! i); reflexivity).
  assert (streamingService (match scheduledTerminations st !! i with
                     | Some h => with_timers (delete h) st
                     | None => st
                     end) = streamingService st) as Hs
    by (destruct (scheduledTerminations st !! i); reflexivity).
  split; simpl.
  - intros h' t' Hl. apply lookup_insert_Some in Hl as [[<- <-] | [Hne Hl]].
    + rewrite Ht. apply lookup_insert_eq.
    + apply Hold in Hl as [Hl Hne']. rewrite lookup_insert_ne by congruence.
      rewrite Hreg. apply H1. exact Hl.
  - intros h' t' Hl. apply lookup_insert_Some in Hl as [[<- <-] | [Hne Hl]]; [lia |].
    apply Hold in Hl as [Hl _]. apply H2 in Hl. lia.
  - intros i' h' Hl. apply lookup_insert_Some in Hl as [[<- <-] | [Hne Hl]]; [lia |].
    rewrite Hreg in Hl. apply H3 in Hl. lia.
  - intros _ _ _. rewrite Hs. exact Hsvc.
Qed.

Section Coherence.

Context (rt : Runtime).

Lemma coherent_scheduleStreamTermination (i : StreamId) (v : Js.Val) :
  stable keeps_coherent (scheduleStreamTermination rt i v).
Proof.
  intros st Hst. unfold exec.
  destruct (streamingService st) as [svc |] eqn:Hsvc.
  - destruct v as [| | b | d | s];
      try (unfold scheduleStreamTermination, bind, get; rewrite Hsvc; simpl;
           apply coherent_console; exact Hst).
    destruct (PrimFloat.is_nan d) eqn:Hnan.
    + unfold scheduleStreamTermination, bind, get. rewrite Hsvc. simpl.
      rewrite Hnan. simpl. apply coherent_console; exact Hst.
    + rewrite (scheduleStreamTermination_arms rt st svc i d Hsvc Hnan). simpl.
      pose proof (coherent_rearm (with_console (LogScheduling i (Js.Math_max 0 d)) st) i
        {| timer_stream := i;
           timer_minutes := Js.Math_max 0 d;
           timer_delay := (Js.Math_max 0 d * 60 * 1000)%float |}) as H.
      simpl in H.
      destruct (scheduledTerminations st !! i); apply H; simpl;
        try reflexivity; try (rewrite Hsvc; eauto);
        apply coherent_console; exact Hst.
  - unfold scheduleStreamTermination, bind, get. rewrite Hsvc. simpl.
    apply coherent_console; exact Hst.
Qed.

Lemma coherent_cancelStreamTermination (i : StreamId) :
  stable keeps_coherent (cancelStreamTermination i).
Proof.
  intros st [H1 H2 H3 H4]. unfold exec, cancelStreamTermination, bind, get. simpl.
  destruct (scheduledTerminations st !! i) as [h |] eqn:Hi; simpl; [| split; assumption].
  split; simpl.
  - intros h' t' Hl. apply lookup_delete_Some in Hl as [Hne Hl].
    pose proof (H1 _ _ Hl) as Hr.
    rewrite lookup_delete_ne; [exact Hr |].
    intros Heq. rewrite <- Heq, Hi in Hr. congruence.
  - intros h' t' Hl. apply lookup_delete_Some in Hl as [_ Hl]. eauto.
  - intros i' h' Hl. apply lookup_delete_Some in Hl as [_ Hl]. eauto.
  - intros i' h' Hl. apply lookup_delete_Some in Hl as [_ Hl]. eauto.
Qed.

Lemma coherent_fire (h : TimerId) : stable keeps_coherent (fire h).
Proof.
  intros st [H1 H2 H3 H4]. unfold exec, fire, bind, get. simpl.
  destruct (timers st !! h) as [t |] eqn:Hh; simpl; [| split; assumption].
  assert (coherent (with_timers (delete h) st)) as Hc.
  { split; simpl.
    - intros h' t' Hl. apply lookup_delete_Some in Hl as [_ Hl]. eauto.
    - intros h' t' Hl. apply lookup_delete_Some in Hl as [_ Hl]. eauto.
    - assumption.
    - assumption. }
  unfold terminate, try_catch, bind, console_log, console_error, modify, call_stopStream.
  simpl.
  destruct (streamingService st) as [svc |] eqn:Hsvc; simpl.
  - destruct (stopStream svc (engine_calls st) (timer_stream t)) as [r | e]; simpl.
    + split; simpl.
      * intros h' t' Hl. apply lookup_delete_Some in Hl as [Hne Hl].
        pose proof (H1 _ _ Hl) as Hr. pose proof (H1 _ _ Hh) as Hr0.
        rewrite lookup_delete_ne; [exact Hr |].
        intros Heq. rewrite Heq, Hr in Hr0. congruence.
      * intros h' t' Hl. apply lookup_delete_Some in Hl as [_ Hl]. eauto.
      * intros i' h' Hl. apply lookup_delete_Some in Hl as [_ Hl]. eauto.
      * intros i' h' _. rewrite Hsvc. eauto.
    + revert Hc. apply coherent_frame; auto.
  - revert Hc. apply coherent_frame; auto.
Qed.

Lemma coherent_checkScheduledStreams (db : StreamModel) :
  stable keeps_coherent (checkScheduledStreams rt db).
Proof.
  unfold checkScheduledStreams, start_scheduled, console_log, console_error.
  apply stable_try_catch; [| intros e; apply stable_modify, coherent_console].
  apply stable_bind; [apply stable_get |]. intros [svc |].
  - apply stable_bind; [intros st; apply coherent_clock |]. intros now.
    apply stable_bind; [apply stable_call_findScheduledInRange, coherent_query |].
    intros streams. destruct (0 <? length streams)%nat; [| apply stable_ret].
    apply stable_bind; [apply stable_modify, coherent_console |]. intros _.
    apply stable_for_of. intros s _.
    apply stable_bind; [apply stable_modify, coherent_console |]. intros _.
    apply stable_bind; [apply stable_call_startStream, coherent_call |]. intros r.
    destruct (success r); apply stable_modify, coherent_console.
  - apply stable_modify, coherent_console.
Qed.

Lemma coherent_check_duration (s : Stream) :
  stable keeps_coherent (check_duration rt s).
Proof.
  unfold check_duration, console_log.
  apply stable_bind; [apply stable_get |]. intros armed.
  match goal with |- context [if ?c then _ else _] => destruct c end;
    [| apply stable_ret].
  apply stable_bind; [intros st; apply coherent_clock |]. intros now.
  match goal with |- context [if ?c then _ else _] => destruct c end.
  - apply stable_bind; [apply stable_modify, coherent_console |]. intros _.
    apply stable_bind; [apply stable_call_stopStream, coherent_call |]. intros _.
    apply stable_ret.
  - apply coherent_scheduleStreamTermination.
Qed.

Lemma coherent_checkStreamDurations (db : StreamModel) :
  stable keeps_coherent (checkStreamDurations rt db).
Proof.
  unfold checkStreamDurations, console_error.
  apply stable_try_catch; [| intros e; apply stable_modify, coherent_console].
  apply stable_bind; [apply stable_get |]. intros [svc |].
  - apply stable_bind; [apply stable_call_findAll, coherent_query |].
    intros l. apply stable_for_of. intros s _. apply coherent_check_duration.
  - apply stable_modify, coherent_console.
Qed.

Lemma coherent_init (svc : StreamingService) (db : StreamModel) :
  stable keeps_coherent (init rt svc db).
Proof.
  unfold init, console_log.
  apply stable_bind; [apply stable_get |]. intros [|].
  - apply stable_modify, coherent_console.
  - apply stable_bind; [apply stable_modify, coherent_service |]. intros _.
    apply stable_bind; [apply stable_modify, coherent_console |]. intros _.
    apply stable_bind; [apply stable_modify, coherent_intervals |]. intros _.
    apply stable_bind; [apply coherent_checkScheduledStreams |]. intros _.
    apply coherent_checkStreamDurations.
Qed.

Lemma coherent_react (ev : Event) (st : State) :
  coherent st -> coherent (react rt ev st).
Proof.
  destruct ev; simpl.
  - apply coherent_init.
  - apply coherent_checkScheduledStreams.
  - apply coherent_checkStreamDurations.
  - apply coherent_fire.
  - apply coherent_scheduleStreamTermination.
  - apply coherent_cancelStreamTermination.
  - apply coherent_cancelStreamTermination.
Qed.

(** Every state a run of whole events leads to is coherent. *)
Lemma coherent_run (evs : list Event) (st : State) :
  coherent st -> coherent (run rt evs st).
Proof.
  revert st. induction evs as [| ev evs IH]; intros st Hst; simpl.
  - exact Hst.
  - apply IH, coherent_react, Hst.
Qed.

End Coherence.

(** ** Re-arming and firing *)

Section Timers.

Context (rt : Runtime).

Lemma run_app (evs evs' : list Event) (st : State) :
  run rt (evs ++ evs') st = run rt evs' (run rt evs st).
Proof. apply fold_left_app. Qed.

Lemma reachable_coherent (st : State) : reachable rt st -> coherent st.
Proof. intros [evs ->]. apply coherent_run, coherent_initial. Qed.

Lemma reachable_react (ev : Event) (st : State) :
  reachable rt st -> reachable rt (react rt ev st).
Proof. intros [evs ->]. exists (evs ++ [ev]). rewrite run_app. reflexivity. Qed.

(** C2: arming an id that has an entry replaces the entry. When the entry of
    [i] holds the handle [h] (a handle that was issued, so below the next
    one), the call cancels the delayed action under [h], queues one new
    action under the next handle, carrying the delay of this call, and
    records that handle in place of [h]: the registry, which maps an id to
    one handle, keeps its size. No other pending action is touched, and if
    the action under [h] was the only one pending for [i], so is the new
    one. *)
Theorem rearm_replaces_entry (st : State) (svc : StreamingService)
    (i : StreamId) (d : float) (h : TimerId) :
  streamingService st = Some svc ->
  scheduledTerminations st !! i = Some h ->
  h < next_timer st ->
  PrimFloat.is_nan d = false ->
  exists st',
    scheduleStreamTermination rt i (Js.Num d) st = (Normal tt, st')
    /\ timers st' !! h = None
    /\ scheduledTerminations st' = <[i := next_timer st]> (scheduledTerminations st)
    /\ size (scheduledTerminations st') = size (scheduledTerminations st)
    /\ timers st' !! next_timer st =
         Some {| timer_stream := i;
                 timer_minutes := Js.Math_max 0 d;
                 timer_delay := (Js.Math_max 0 d * 60 * 1000)%float |}
    /\ (forall h', h' <> h -> h' <> next_timer st ->
          timers st' !! h' = timers st !! h')
    /\ (only_registered i st ->
        forall h' t', timers st' !! h' = Some t' -> timer_stream t' = i ->
          h' = next_timer st).
Proof.
  intros Hsvc Hi Hlt Hnan.
  rewrite (scheduleStreamTermination_arms rt st svc i d Hsvc Hnan), Hi.
  eexists. split; [reflexivity |]. simpl.
  split; [rewrite lookup_insert_ne by lia; apply lookup_delete_eq |].
  split; [reflexivity |].
  split; [apply map_size_insert_Some; eauto |].
  split; [apply lookup_insert_eq |].
  split.
  - intros h' Hh Hn.
    rewrite lookup_insert_ne by congruence. apply lookup_delete_ne. congruence.
  - intros Hone h' t' Hl Ht.
    apply lookup_insert_Some in Hl as [[<- _] | [_ Hl]]; [reflexivity |].
    apply lookup_delete_Some in Hl as [Hne Hl].
    pose proof (Hone h' t' Hl Ht) as Hr. congruence.
Qed.

(** When the stop settles, with whatever result, the closure removes the
    entry of its stream. *)
Lemma fire_resolved (st : State) (svc : StreamingService) (h : TimerId)
    (t : Timer) (r : EngineResult) :
  streamingService st = Some svc ->
  timers st !! h = Some t ->
  stopStream svc (engine_calls st) (timer_stream t) = Resolved r ->
  fire h st =
    (Normal tt,
     with_registry (delete (timer_stream t))
       (with_call (CallStop (timer_stream t))
          (with_console (LogTerminating (timer_stream t) (timer_minutes t))
             (with_timers (delete h) st)))).
Proof.
  intros Hsvc Ht Hstop.
  unfold fire, bind, get, terminate, try_catch, bind, call_stopStream. simpl.
  rewrite Ht. simpl. rewrite Hsvc, Hstop. reflexivity.
Qed.

(** When the stop is rejected, the closure logs and the entry stays. *)
Lemma fire_rejected (st : State) (svc : StreamingService) (h : TimerId)
    (t : Timer) (e : JsError) :
  streamingService st = Some svc ->
  timers st !! h = Some t ->
  stopStream svc (engine_calls st) (timer_stream t) = Rejected e ->
  fire h st =
    (Normal tt,
     with_console (ErrTerminating (timer_stream t) e)
       (with_call (CallStop (timer_stream t))
          (with_console (LogTerminating (timer_stream t) (timer_minutes t))
             (with_timers (delete h) st)))).
Proof.
  intros Hsvc Ht Hstop.
  unfold fire, bind, get, terminate, try_catch, bind, call_stopStream. simpl.
  rewrite Ht. simpl. rewrite Hsvc, Hstop. reflexivity.
Qed.

End Timers.

(** [rearm_replaces_entry] at work: "A", armed for ten minutes under handle
    0, is armed again for three. *)
Lemma rearm_replaces_entry_witness :
  exists st',
    scheduleStreamTermination Fixture.rt "A" (Js.Num 3) (Fixture.armed Fixture.healthy)
      = (Normal tt, st')
    /\ timers st' !! 0 = None
    /\ scheduledTerminations st' !! "A" = Some 1
    /\ size (scheduledTerminations st') = 1
    /\ timers st' !! 1 =
         Some {| timer_stream := "A"; timer_minutes := 3; timer_delay := 180000 |}
    /\ forall h' t', timers st' !! h' = Some t' -> timer_stream t' = "A" -> h' = 1.
Proof.
  destruct (rearm_replaces_entry Fixture.rt (Fixture.armed Fixture.healthy)
              Fixture.healthy "A" 3 0)
    as (st' & Hrun & Hold & Hreg & Hsize & Hnew & _ & Hone).
  - vm_compute. reflexivity.
  - vm_compute. reflexivity.
  - vm_compute. lia.
  - vm_compute. reflexivity.
  - assert (next_timer (Fixture.armed Fixture.healthy) = 1) as Hnext
      by (vm_compute; reflexivity).
    rewrite Hnext in Hreg, Hnew, Hone.
    exists st'. split; [exact Hrun |]. split; [exact Hold |].
    split; [rewrite Hreg; apply lookup_insert_eq |].
    split; [rewrite Hsize; vm_compute; reflexivity |].
    split; [rewrite Hnew; vm_compute; reflexivity |].
    apply Hone. intros h t Hl Ht.
    assert (timers (Fixture.armed Fixture.healthy)
            = {[ 0 := {| timer_stream := "A"; timer_minutes := 10;
                         timer_delay := 600000 |} ]}) as Htimers
      by (vm_compute; reflexivity).
    rewrite Htimers in Hl. apply lookup_singleton_Some in Hl as [<- _].
    vm_compute. reflexivity.
Defined.

(** [scheduleStreamTermination_rejects] at work, on NaN. *)
Lemma scheduleStreamTermination_rejects_witness :
  exists e,
    scheduleStreamTermination Fixture.rt "A" (Js.Num nan) (Fixture.ready Fixture.healthy)
      = (Normal tt, with_console e (Fixture.ready Fixture.healthy))
    /\ (e = ErrNotInitialized \/ e = ErrInvalidDuration "A" (Js.Num nan))
    /\ scheduledTerminations (with_console e (Fixture.ready Fixture.healthy))
         = scheduledTerminations (Fixture.ready Fixture.healthy)
    /\ timers (with_console e (Fixture.ready Fixture.healthy))
         = timers (Fixture.ready Fixture.healthy)
    /\ next_timer (with_console e (Fixture.ready Fixture.healthy))
         = next_timer (Fixture.ready Fixture.healthy)
    /\ engine_calls (with_console e (Fixture.ready Fixture.healthy))
         = engine_calls (Fixture.ready Fixture.healthy).
Proof.
  apply (scheduleStreamTermination_rejects Fixture.rt
           (Fixture.ready Fixture.healthy) "A" (Js.Num nan)).
  right. reflexivity.
Defined.

(** C4 as first stated fails on the infinities, which are numbers and are
    not NaN: +Infinity is armed with an infinite delay and -Infinity with a
    zero delay, each with a registry entry. *)
Lemma scheduleStreamTermination_arms_infinities :
  PrimFloat.is_finite infinity = false
  /\ PrimFloat.is_finite neg_infinity = false
  /\ scheduledTerminations (Fixture.ready Fixture.healthy) !! "A" = None
  /\ timers (Fixture.ready Fixture.healthy) = ∅
  /\ scheduledTerminations
       (exec (scheduleStreamTermination Fixture.rt "A" (Js.Num infinity))
          (Fixture.ready Fixture.healthy)) !! "A" = Some 0
  /\ timers
       (exec (scheduleStreamTermination Fixture.rt "A" (Js.Num infinity))
          (Fixture.ready Fixture.healthy)) !! 0 =
       Some {| timer_stream := "A"; timer_minutes := infinity; timer_delay := infinity |}
  /\ scheduledTerminations
       (exec (scheduleStreamTermination Fixture.rt "A" (Js.Num neg_infinity))
          (Fixture.ready Fixture.healthy)) !! "A" = Some 0
  /\ timers
       (exec (scheduleStreamTermination Fixture.rt "A" (Js.Num neg_infinity))
          (Fixture.ready Fixture.healthy)) !! 0 =
       Some {| timer_stream := "A"; timer_minutes := 0; timer_delay := 0 |}.
Proof. repeat split; vm_compute; reflexivity. Qed.

(** [scheduleStreamTermination_clamps] at work, on minus five minutes. *)
Lemma scheduleStreamTermination_clamps_witness :
  exists st',
    scheduleStreamTermination Fixture.rt "A" (Js.Num (-5)) (Fixture.ready Fixture.healthy)
      = (Normal tt, st')
    /\ scheduledTerminations st' !! "A" = Some 0
    /\ timers st' !! 0 =
         Some {| timer_stream := "A"; timer_minutes := 0; timer_delay := 0 |}.
Proof.
  destruct (scheduleStreamTermination_clamps Fixture.rt
              (Fixture.ready Fixture.healthy) Fixture.healthy "A" (-5)%float)
    as (st' & Hrun & Hreg & Htimer & _).
  - reflexivity.
  - reflexivity.
  - exists st'. split; [exact Hrun |]. split; [exact Hreg | exact Htimer].
Defined.

(** C1: the closure armed for "A" fires while the service rejects every stop.
    The stop is asked once, the rejection is logged, and the entry of "A" is
    still in the registry although no delayed action is pending. A watchdog
    tick that then finds "A" live and fifty minutes over its ten-minute
    duration skips it: no further stop, nothing armed. The same tick from
    the state without the stale entry does stop "A". *)
Theorem rejected_stop_leaves_stale_entry :
  scheduledTerminations (Fixture.armed Fixture.stop_rejects) !! "A" = Some 0
  /\ scheduledTerminations
       (exec (fire 0) (Fixture.armed Fixture.stop_rejects)) !! "A" = Some 0
  /\ timers (exec (fire 0) (Fixture.armed Fixture.stop_rejects)) = ∅
  /\ engine_calls (exec (fire 0) (Fixture.armed Fixture.stop_rejects)) = [CallStop "A"]
  /\ console (exec (fire 0) (Fixture.armed Fixture.stop_rejects)) =
       console (Fixture.armed Fixture.stop_rejects)
         ++ [LogTerminating "A" 10; ErrTerminating "A" "stop failed"]
  /\ engine_calls
       (exec (checkStreamDurations Fixture.rt
                (Stream_over [Fixture.live "A" (Js.Str Fixture.t0) (Js.Num 10)]))
          (exec (fire 0) (Fixture.armed Fixture.stop_rejects))) = [CallStop "A"]
  /\ timers
       (exec (checkStreamDurations Fixture.rt
                (Stream_over [Fixture.live "A" (Js.Str Fixture.t0) (Js.Num 10)]))
          (exec (fire 0) (Fixture.armed Fixture.stop_rejects))) = ∅
  /\ engine_calls
       (exec (checkStreamDurations Fixture.rt
                (Stream_over [Fixture.live "A" (Js.Str Fixture.t0) (Js.Num 10)]))
          (Fixture.ready Fixture.stop_rejects)) = [CallStop "A"].
Proof. repeat split; vm_compute; reflexivity. Qed.

(** ** The duration watchdog *)

Section Watchdog.

Context (rt : Runtime).

Lemma for_of_app {A} (l1 l2 : list A) (body : A -> M unit) (st : State) :
  for_of (l1 ++ l2) body st = (for_of l1 body >> for_of l2 body) st.
Proof.
  revert st. induction l1 as [| x l1 IH]; intros st; simpl.
  - reflexivity.
  - unfold bind. destruct (body x st) as [[[] | e] st1]; [| reflexivity].
    rewrite IH. reflexivity.
Qed.

#[local] Instance same_service_preorder : PreOrder same_service.
Proof.
  split; [intros st; reflexivity |].
  intros a b c Hab Hbc. unfold same_service in *. congruence.
Qed.

Lemma same_service_scheduleStreamTermination (i : StreamId) (v : Js.Val) :
  stable same_service (scheduleStreamTermination rt i v).
Proof.
  intros st. unfold exec, scheduleStreamTermination, bind, get. simpl.
  destruct (streamingService st) eqn:Hsvc; [| reflexivity].
  match goal with |- context [if ?c then _ else _] => destruct c end;
    [reflexivity |].
  destruct (scheduledTerminations st !! i); reflexivity.
Qed.

Lemma same_service_check_duration (s : Stream) :
  stable same_service (check_duration rt s).
Proof.
  unfold check_duration, console_log.
  apply stable_bind; [apply stable_get |]. intros armed.
  match goal with |- context [if ?c then _ else _] => destruct c end;
    [| apply stable_ret].
  apply stable_bind; [intros st; reflexivity |]. intros now.
  match goal with |- context [if ?c then _ else _] => destruct c end.
  - apply stable_bind; [apply stable_modify; reflexivity |]. intros _.
    apply stable_bind; [apply stable_call_stopStream; reflexivity |]. intros _.
    apply stable_ret.
  - apply same_service_scheduleStreamTermination.
Qed.

Lemma scheduleStreamTermination_normal (i : StreamId) (v : Js.Val) (st : State) :
  fst (scheduleStreamTermination rt i v st) = Normal tt.
Proof.
  unfold scheduleStreamTermination, bind, get. simpl.
  destruct (streamingService st); [| reflexivity].
  match goal with |- context [if ?c then _ else _] => destruct c end;
    [reflexivity |].
  destruct (scheduledTerminations st !! i); reflexivity.
Qed.

(** The one exception a turn of the watchdog's loop can end with is the
    rejection of its stop call. *)
Lemma check_duration_throws (svc : StreamingService) (s : Stream)
    (st st' : State) (e : JsError) :
  streamingService st = Some svc ->
  check_duration rt s st = (Throw e, st') ->
  stopStream svc (engine_calls st) (id s) = Rejected e.
Proof.
  intros Hsvc. unfold check_duration, bind, get, Date_now. simpl.
  match goal with |- context [if ?c then _ else _] => destruct c end;
    [| intros H; discriminate H].
  match goal with |- context [if ?c then _ else _] => destruct c end.
  - unfold console_log, modify, call_stopStream. simpl. rewrite Hsvc.
    destruct (stopStream svc (engine_calls st) (id s)) as [r | e0]; simpl;
      intros H; [discriminate H | injection H as -> _; reflexivity].
  - intros H.
    match type of H with
    | ?m = _ => pose proof (scheduleStreamTermination_normal (id s) _ _ : fst m = Normal tt) as Hn
    end.
    rewrite H in Hn. discriminate Hn.
Qed.

(** So the loop stops short of a row only behind a rejected stop call. *)
Lemma for_of_check_duration_throws (svc : StreamingService) (l : list Stream)
    (st st' : State) (e : JsError) :
  streamingService st = Some svc ->
  for_of l (check_duration rt) st = (Throw e, st') ->
  exists s st0,
    s ∈ l /\ stopStream svc (engine_calls st0) (id s) = Rejected e.
Proof.
  revert st. induction l as [| x l IH]; intros st Hsvc Hrun; simpl in Hrun.
  - discriminate Hrun.
  - unfold bind in Hrun.
    destruct (check_duration rt x st) as [[[] | e0] st1] eqn:Hx.
    + assert (streamingService st1 = Some svc) as Hsvc1.
      { pose proof (same_service_check_duration x st) as H.
        unfold exec, same_service in H. rewrite Hx in H. simpl in H.
        rewrite H. exact Hsvc. }
      destruct (IH st1 Hsvc1 Hrun) as (s & st0 & Hin & Hrej).
      exists s, st0. split; [right; exact Hin | exact Hrej].
    + injection Hrun as -> _. exists x, st.
      split; [left | exact (check_duration_throws svc x st st1 e Hsvc Hx)].
Qed.

(** C3, amended: a watchdog tick that gets to the live broadcast [s] (the
    broadcasts [pre] before it in the list were handled without an
    exception, that is, no stop call made for one of them was rejected),
    finds both its duration and its start time set and no entry for it,
    reads the clock once and compares [expiry = start_time + duration
    minutes] with it. If the expiry is not after now, it asks the service to
    stop [s] and leaves timers and registry as they were; otherwise what it
    does for [s] is the call of [scheduleStreamTermination] with
    (expiry - now) / 60000. *)
Theorem watchdog_stops_or_arms (db : StreamModel) (st st1 : State)
    (svc : StreamingService) (pre post : list Stream) (s : Stream) :
  streamingService st = Some svc ->
  findAll db Js.Null Live = Resolved (pre ++ s :: post) ->
  for_of pre (check_duration rt) (with_query (FindAll Js.Null Live) st)
    = (Normal tt, st1) ->
  Js.truthy (duration s) = true ->
  Js.truthy (start_time s) = true ->
  scheduledTerminations st1 !! id s = None ->
  checkStreamDurations rt db st =
    try_catch
      (check_duration rt s >> for_of post (check_duration rt))
      (fun error => console_error (ErrCheckingDurations error)) st1
  /\ if Date_le (expiry rt s) (DateAt (clock rt (clock_reads st1)))
     then
       exists c st2,
         check_duration rt s st1 = (c, st2)
         /\ engine_calls st2 = engine_calls st1 ++ [CallStop (id s)]
         /\ console st2 = console st1 ++ [LogExceeded (id s)]
         /\ timers st2 = timers st1
         /\ scheduledTerminations st2 = scheduledTerminations st1
     else
       check_duration rt s st1 =
         scheduleStreamTermination rt (id s)
           (Js.Num ((getTime (expiry rt s)
                     - getTime (DateAt (clock rt (clock_reads st1)))) / 60000)%float)
           (with_clock_read st1).
Proof.
  intros Hsvc Hdb Hpre Hd Hs Hnone.
  assert (streamingService st1 = Some svc) as Hsvc1.
  { pose proof (stable_for_of (R := same_service) pre (check_duration rt)
                  (fun x _ => same_service_check_duration x)
                  (with_query (FindAll Js.Null Live) st)) as H.
    unfold exec in H. rewrite Hpre in H. simpl in H.
    unfold same_service in H. rewrite H. exact Hsvc. }
  split.
  - unfold checkStreamDurations, try_catch, bind at 1, get. simpl.
    rewrite Hsvc. unfold bind at 1, call_findAll. rewrite Hdb. simpl.
    rewrite for_of_app. unfold bind at 1. rewrite Hpre. reflexivity.
  - unfold check_duration, bind, get, Date_now. simpl.
    rewrite Hd, Hs, Hnone. simpl. fold (expiry rt s).
    destruct (Date_le (expiry rt s) (DateAt (clock rt (clock_reads st1)))).
    + unfold console_log, modify, call_stopStream. simpl.
      rewrite Hsvc1.
      destruct (stopStream svc (engine_calls st1) (id s)); simpl;
        eexists _, _; (split; [reflexivity |]); repeat split.
    + reflexivity.
Qed.

End Watchdog.

(** [watchdog_stops_or_arms] at work on a tick over "A" and "B", an hour
    after both went live: "A" (ten minutes) is stopped and nothing is queued;
    "B" (two hours), reached after "A", is armed through
    [scheduleStreamTermination] with what is left of its two hours. *)
Lemma watchdog_stops_or_arms_witness :
  (exists c st2,
      check_duration Fixture.rt Fixture.live_A
        (with_query (FindAll Js.Null Live) (Fixture.ready Fixture.healthy)) = (c, st2)
      /\ engine_calls st2 = [CallStop "A"]
      /\ timers st2 = ∅)
  /\ check_duration Fixture.rt Fixture.live_B
       (exec (check_duration Fixture.rt Fixture.live_A)
          (with_query (FindAll Js.Null Live) (Fixture.ready Fixture.healthy)))
     = scheduleStreamTermination Fixture.rt "B" (Js.Num (3598000 / 60000)%float)
         (with_clock_read
            (exec (check_duration Fixture.rt Fixture.live_A)
               (with_query (FindAll Js.Null Live) (Fixture.ready Fixture.healthy)))).
Proof.
  split.
  - destruct (watchdog_stops_or_arms Fixture.rt
                (Stream_over [Fixture.live_A; Fixture.live_B])
                (Fixture.ready Fixture.healthy)
                (with_query (FindAll Js.Null Live) (Fixture.ready Fixture.healthy))
                Fixture.healthy [] [Fixture.live_B] Fixture.live_A)
      as [_ H]; [vm_compute; reflexivity .. |].
    assert (Date_le (expiry Fixture.rt Fixture.live_A)
              (DateAt (clock Fixture.rt
                 (clock_reads (with_query (FindAll Js.Null Live)
                    (Fixture.ready Fixture.healthy))))) = true) as Hle
      by (vm_compute; reflexivity).
    rewrite Hle in H. destruct H as (c & st2 & Hrun & Hcalls & _ & Htimers & _).
    exists c, st2. split; [exact Hrun |].
    split; [rewrite Hcalls | rewrite Htimers]; vm_compute; reflexivity.
  - destruct (watchdog_stops_or_arms Fixture.rt
                (Stream_over [Fixture.live_A; Fixture.live_B])
                (Fixture.ready Fixture.healthy)
                (exec (check_duration Fixture.rt Fixture.live_A)
                   (with_query (FindAll Js.Null Live) (Fixture.ready Fixture.healthy)))
                Fixture.healthy [Fixture.live_A] [] Fixture.live_B)
      as [_ H]; [vm_compute; reflexivity .. |].
    assert (Date_le (expiry Fixture.rt Fixture.live_B)
              (DateAt (clock Fixture.rt
                 (clock_reads (exec (check_duration Fixture.rt Fixture.live_A)
                    (with_query (FindAll Js.Null Live)
                       (Fixture.ready Fixture.healthy)))))) = false) as Hle
      by (vm_compute; reflexivity).
    rewrite Hle in H. rewrite H. f_equal.
Defined.

(** C3 as first stated fails for a broadcast behind a rejected stop. On a
    tick over "A" and "E", both live with duration and start time, without
    an entry and past their expiry, the stop of "A" is rejected: the catch of
    the tick logs the error and the tick ends. "E" is neither stopped nor
    armed. *)
Lemma rejected_stop_skips_the_rest :
  findAll (Stream_over [Fixture.live_A; Fixture.live_E]) Js.Null Live
    = Resolved [Fixture.live_A; Fixture.live_E]
  /\ limited Fixture.live_E = true
  /\ scheduledTerminations (Fixture.ready Fixture.stop_rejects) !! "E" = None
  /\ Date_le (expiry Fixture.rt Fixture.live_E)
       (DateAt (clock Fixture.rt (clock_reads (Fixture.ready Fixture.stop_rejects))))
     = true
  /\ fst (checkStreamDurations Fixture.rt
            (Stream_over [Fixture.live_A; Fixture.live_E])
            (Fixture.ready Fixture.stop_rejects))
     = Normal tt
  /\ engine_calls
       (exec (checkStreamDurations Fixture.rt
                (Stream_over [Fixture.live_A; Fixture.live_E]))
          (Fixture.ready Fixture.stop_rejects))
     = [CallStop "A"]
  /\ console
       (exec (checkStreamDurations Fixture.rt
                (Stream_over [Fixture.live_A; Fixture.live_E]))
          (Fixture.ready Fixture.stop_rejects))
     = console (Fixture.ready Fixture.stop_rejects)
         ++ [LogExceeded "A"; ErrCheckingDurations "stop failed"]
  /\ scheduledTerminations
       (exec (checkStreamDurations Fixture.rt
                (Stream_over [Fixture.live_A; Fixture.live_E]))
          (Fixture.ready Fixture.stop_rejects))
     = ∅
  /\ timers
       (exec (checkStreamDurations Fixture.rt
                (Stream_over [Fixture.live_A; Fixture.live_E]))
          (Fixture.ready Fixture.stop_rejects))
     = ∅.
Proof. repeat split; vm_compute; reflexivity. Qed.

(** ** Broadcasts the watchdog leaves alone *)

#[local] Instance untouched_preorder (i : StreamId) : PreOrder (untouched i).
Proof.
  split.
  - intros st. split; [reflexivity |]. split; [auto |].
    exists []. split; [symmetry; apply app_nil_r | apply not_elem_of_nil].
  - intros a b c (Hr1 & Ht1 & l1 & Hc1 & Hn1) (Hr2 & Ht2 & l2 & Hc2 & Hn2).
    split; [congruence |]. split; [auto |].
    exists (l1 ++ l2). split.
    + rewrite Hc2, Hc1. symmetry. apply app_assoc.
    + apply not_elem_of_app. auto.
Qed.

Lemma untouched_frame (i : StreamId) (st st' : State) :
  scheduledTerminations st' = scheduledTerminations st ->
  timers st' = timers st ->
  engine_calls st' = engine_calls st ->
  untouched i st st'.
Proof.
  intros Hr Ht Hc. split; [rewrite Hr; reflexivity |].
  split; [rewrite Ht; auto |].
  exists []. rewrite Hc. split; [symmetry; apply app_nil_r | apply not_elem_of_nil].
Qed.

Lemma untouched_call (i j : StreamId) (st : State) :
  j <> i -> untouched i st (with_call (CallStop j) st).
Proof.
  intros Hne. split; [reflexivity |]. split; [auto |].
  exists [CallStop j]. split; [reflexivity |].
  intros Hin. apply list_elem_of_singleton in Hin. congruence.
Qed.

Section Unlimited.

Context (rt : Runtime).

(** Arming another stream, one with no entry, leaves [i] alone. *)
Lemma untouched_scheduleStreamTermination (i j : StreamId) (v : Js.Val) (st : State) :
  j <> i ->
  scheduledTerminations st !! j = None ->
  untouched i st (exec (scheduleStreamTermination rt j v) st).
Proof.
  intros Hne Hnone. unfold exec, scheduleStreamTermination, bind, get. simpl.
  destruct (streamingService st); [| apply untouched_frame; reflexivity].
  match goal with |- context [if ?c then _ else _] => destruct c end;
    [apply untouched_frame; reflexivity |].
  rewrite Hnone. simpl.
  split; simpl; [apply lookup_insert_ne; exact Hne |].
  split.
  - intros h t Hl Ht. apply lookup_insert_Some in Hl as [[_ <-] | [_ Hl]].
    + simpl in Ht. congruence.
    + exact Hl.
  - exists []. split; [symmetry; apply app_nil_r | apply not_elem_of_nil].
Qed.

(** The loop body leaves [i] alone on every row that is not a limited row
    of [i]. *)
Lemma untouched_check_duration (i : StreamId) (s : Stream) :
  (id s = i -> limited s = false) ->
  stable (untouched i) (check_duration rt s).
Proof.
  intros Hgate st. unfold exec, check_duration, bind, get. simpl.
  change (Js.truthy (duration s) && Js.truthy (start_time s)) with (limited s).
  destruct (limited s) eqn:Hlim; simpl; [| reflexivity].
  assert (id s <> i) as Hne by (intros Heq; apply Hgate in Heq; congruence).
  destruct (scheduledTerminations st !! id s) as [h |] eqn:Hreg.
  { rewrite bool_decide_eq_true_2 by eauto. reflexivity. }
  rewrite bool_decide_eq_false_2 by (apply is_Some_None). simpl.
  unfold Date_now. simpl.
  match goal with |- context [if ?c then _ else _] => destruct c end.
  - unfold console_log, modify, call_stopStream. simpl.
    destruct (streamingService st); simpl;
      [| apply untouched_frame; reflexivity].
    transitivity (with_call (CallStop (id s))
                    (with_console (LogExceeded (id s)) (with_clock_read st))).
    + transitivity (with_console (LogExceeded (id s)) (with_clock_read st)).
      * apply untouched_frame; reflexivity.
      * apply untouched_call. exact Hne.
    + destruct (stopStream _ _ _); reflexivity.
  - transitivity (with_clock_read st); [apply untouched_frame; reflexivity |].
    apply untouched_scheduleStreamTermination; [exact Hne | exact Hreg].
Qed.

Lemma untouched_checkStreamDurations (i : StreamId) (db : StreamModel) :
  (forall l s, findAll db Js.Null Live = Resolved l -> s ∈ l -> id s = i ->
     limited s = false) ->
  stable (untouched i) (checkStreamDurations rt db).
Proof.
  intros Hrows. unfold checkStreamDurations, console_error.
  apply stable_try_catch;
    [| intros e; apply stable_modify; intros st; apply untouched_frame; reflexivity].
  apply stable_bind; [apply stable_get |]. intros [svc |];
    [| apply stable_modify; intros st; apply untouched_frame; reflexivity].
  apply stable_bind_run.
  - apply stable_call_findAll. intros q st. apply untouched_frame; reflexivity.
  - intros st l st' Hrun. apply stable_for_of. intros s Hs.
    apply untouched_check_duration. intros Hid.
    apply (Hrows l s); [| exact Hs | exact Hid].
    unfold call_findAll in Hrun.
    destruct (findAll db Js.Null Live) as [l' | e];
      unfold await, ret, throw in Hrun; congruence.
Qed.

Lemma untouched_watchdog_ticks (i : StreamId) (dbs : list StreamModel) (st : State) :
  (forall db l s, db ∈ dbs -> findAll db Js.Null Live = Resolved l -> s ∈ l ->
     id s = i -> limited s = false) ->
  untouched i st (watchdog_ticks rt dbs st).
Proof.
  revert st. induction dbs as [| db dbs IH]; intros st Hrows; simpl.
  - reflexivity.
  - transitivity (exec (checkStreamDurations rt db) st).
    + apply untouched_checkStreamDurations. intros l s. apply Hrows. left.
    + apply IH. intros db' l s Hin. apply Hrows. right. exact Hin.
Qed.

(** C9: over any number of watchdog ticks, whatever the tables hold, a
    broadcast whose rows carry no duration (undefined or null) is left alone:
    its registry entry is what it was (none, if it had none), no delayed
    action for it is queued, and no stop is asked for it. *)
Theorem absent_duration_never_armed (dbs : list StreamModel) (i : StreamId)
    (st : State) :
  (forall db l s, db ∈ dbs -> findAll db Js.Null Live = Resolved l -> s ∈ l ->
     id s = i -> duration s = Js.Undefined \/ duration s = Js.Null) ->
  scheduledTerminations (watchdog_ticks rt dbs st) !! i = scheduledTerminations st !! i
  /\ (forall h t, timers (watchdog_ticks rt dbs st) !! h = Some t ->
        timer_stream t = i -> timers st !! h = Some t)
  /\ exists calls,
       engine_calls (watchdog_ticks rt dbs st) = engine_calls st ++ calls
       /\ CallStop i ∉ calls.
Proof.
  intros Hrows. apply untouched_watchdog_ticks.
  intros db l s Hdb Hl Hs Hid. unfold limited.
  destruct (Hrows db l s Hdb Hl Hs Hid) as [-> | ->]; reflexivity.
Qed.

(** C10: the same holds for a broadcast whose rows carry the duration 0, or
    no start time: the watchdog's gate is on the truth value of the two
    columns, so a zero duration is never compared with the clock. *)
Theorem zero_duration_never_armed (dbs : list StreamModel) (i : StreamId)
    (st : State) :
  (forall db l s, db ∈ dbs -> findAll db Js.Null Live = Resolved l -> s ∈ l ->
     id s = i ->
     duration s = Js.Num 0 \/ start_time s = Js.Undefined \/ start_time s = Js.Null) ->
  scheduledTerminations (watchdog_ticks rt dbs st) !! i = scheduledTerminations st !! i
  /\ (forall h t, timers (watchdog_ticks rt dbs st) !! h = Some t ->
        timer_stream t = i -> timers st !! h = Some t)
  /\ exists calls,
       engine_calls (watchdog_ticks rt dbs st) = engine_calls st ++ calls
       /\ CallStop i ∉ calls.
Proof.
  intros Hrows. apply untouched_watchdog_ticks.
  intros db l s Hdb Hl Hs Hid. unfold limited.
  destruct (Hrows db l s Hdb Hl Hs Hid) as [-> | [-> | ->]];
    [reflexivity | apply andb_false_r ..].
Qed.

End Unlimited.

(** [absent_duration_never_armed] at work: three ticks over "U" (no
    duration) and the overdue "A". *)
Lemma absent_duration_never_armed_witness :
  scheduledTerminations
    (watchdog_ticks Fixture.rt
       [Stream_over [Fixture.live_U; Fixture.live_A];
        Stream_over [Fixture.live_U; Fixture.live_A];
        Stream_over [Fixture.live_U]]
       (Fixture.ready Fixture.healthy)) !! "U"
  = scheduledTerminations (Fixture.ready Fixture.healthy) !! "U"
  /\ (forall h t,
        timers
          (watchdog_ticks Fixture.rt
             [Stream_over [Fixture.live_U; Fixture.live_A];
              Stream_over [Fixture.live_U; Fixture.live_A];
              Stream_over [Fixture.live_U]]
             (Fixture.ready Fixture.healthy)) !! h = Some t ->
        timer_stream t = "U" -> timers (Fixture.ready Fixture.healthy) !! h = Some t)
  /\ exists calls,
       engine_calls
         (watchdog_ticks Fixture.rt
            [Stream_over [Fixture.live_U; Fixture.live_A];
             Stream_over [Fixture.live_U; Fixture.live_A];
             Stream_over [Fixture.live_U]]
            (Fixture.ready Fixture.healthy))
       = engine_calls (Fixture.ready Fixture.healthy) ++ calls
       /\ CallStop "U" ∉ calls.
Proof.
  apply (absent_duration_never_armed Fixture.rt).
  intros db l s Hdb Hl Hs Hid.
  repeat (apply elem_of_cons in Hdb as [-> | Hdb]);
    try (apply elem_of_nil in Hdb; contradiction);
    injection Hl as <-;
    repeat (apply elem_of_cons in Hs as [-> | Hs]);
    try (apply elem_of_nil in Hs; contradiction);
    try discriminate Hid; right; reflexivity.
Defined.

(** [zero_duration_never_armed] at work: three ticks over "Z" (duration 0)
    and the overdue "A". *)
Lemma zero_duration_never_armed_witness :
  scheduledTerminations
    (watchdog_ticks Fixture.rt
       [Stream_over [Fixture.live_Z; Fixture.live_A];
        Stream_over [Fixture.live_Z; Fixture.live_A];
        Stream_over [Fixture.live_Z]]
       (Fixture.ready Fixture.healthy)) !! "Z"
  = scheduledTerminations (Fixture.ready Fixture.healthy) !! "Z"
  /\ (forall h t,
        timers
          (watchdog_ticks Fixture.rt
             [Stream_over [Fixture.live_Z; Fixture.live_A];
              Stream_over [Fixture.live_Z; Fixture.live_A];
              Stream_over [Fixture.live_Z]]
             (Fixture.ready Fixture.healthy)) !! h = Some t ->
        timer_stream t = "Z" -> timers (Fixture.ready Fixture.healthy) !! h = Some t)
  /\ exists calls,
       engine_calls
         (watchdog_ticks Fixture.rt
            [Stream_over [Fixture.live_Z; Fixture.live_A];
             Stream_over [Fixture.live_Z; Fixture.live_A];
             Stream_over [Fixture.live_Z]]
            (Fixture.ready Fixture.healthy))
       = engine_calls (Fixture.ready Fixture.healthy) ++ calls
       /\ CallStop "Z" ∉ calls.
Proof.
  apply (zero_duration_never_armed Fixture.rt).
  intros db l s Hdb Hl Hs Hid.
  repeat (apply elem_of_cons in Hdb as [-> | Hdb]);
    try (apply elem_of_nil in Hdb; contradiction);
    injection Hl as <-;
    repeat (apply elem_of_cons in Hs as [-> | Hs]);
    try (apply elem_of_nil in Hs; contradiction);
    try discriminate Hid; left; reflexivity.
Defined.

(** ** The schedule poller *)

Section Poller.

Context (rt : Runtime).

(** A tick never completes with an exception: the periodic task goes on. *)
Lemma checkScheduledStreams_returns (db : StreamModel) (st : State) :
  fst (checkScheduledStreams rt db st) = Normal tt.
Proof.
  unfold checkScheduledStreams, try_catch.
  match goal with |- context [let (_, _) := ?m st in _] => destruct (m st) as [[[] | e] st1] end;
    reflexivity.
Qed.

(** One turn of the loop when the start settles: both log lines and the
    call are recorded and the loop goes on, whatever the result says. *)
Lemma start_scheduled_settled (st : State) (svc : StreamingService)
    (s : Stream) (r : EngineResult) :
  streamingService st = Some svc ->
  startStream svc (engine_calls st) (id s) = Resolved r ->
  start_scheduled s st =
    (Normal tt,
     with_console
       (if success r then LogStarted (id s) else ErrStartFailed (id s) (error r))
       (with_call (CallStart (id s))
          (with_console (LogStarting (id s) (title s)) st))).
Proof.
  intros Hsvc Hstart.
  unfold start_scheduled, bind, console_log, console_error, modify, call_startStream.
  simpl. rewrite Hsvc, Hstart. simpl. destruct (success r); reflexivity.
Qed.

(** The calls of a list that settles through, turn by turn. *)
Lemma settle_through_app (svc : StreamingService) (hist : list EngineCall)
    (l1 l2 : list Stream) :
  settle_through svc hist l1 ->
  settle_through svc (hist ++ start_calls l1) l2 ->
  settle_through svc hist (l1 ++ l2).
Proof.
  revert hist. induction l1 as [| x l1 IH]; intros hist H1 H2.
  - unfold start_calls in H2. simpl in H2. rewrite app_nil_r in H2. exact H2.
  - destruct H1 as [Hx H1]. split; [exact Hx |]. apply IH; [exact H1 |].
    unfold start_calls in *. rewrite fmap_cons in H2.
    rewrite <- app_assoc. exact H2.
Qed.

#[local] Instance grows_preorder : PreOrder grows.
Proof.
  split.
  - intros st. split; exists []; symmetry; apply app_nil_r.
  - intros a b c [[k1 H1] [m1 H2]] [[k2 H3] [m2 H4]]. split.
    + exists (k1 ++ k2). rewrite H3, H1. symmetry. apply app_assoc.
    + exists (m1 ++ m2). rewrite H4, H2. symmetry. apply app_assoc.
Qed.

Lemma grows_console (e : LogEvent) (st : State) : grows st (with_console e st).
Proof. split; [exists [e]; reflexivity | exists []; symmetry; apply app_nil_r]. Qed.

Lemma grows_call (c : EngineCall) (st : State) : grows st (with_call c st).
Proof. split; [exists []; symmetry; apply app_nil_r | exists [c]; reflexivity]. Qed.

(** What is left of a tick after any turn only adds to console and calls. *)
Lemma grows_rest (l : list Stream) :
  stable grows
    (try_catch (for_of l start_scheduled)
       (fun error => console_error (ErrCheckingScheduled error))).
Proof.
  unfold console_error.
  apply stable_try_catch; [| intros e; apply stable_modify, grows_console].
  apply stable_for_of. intros s _. unfold start_scheduled, console_log, console_error.
  apply stable_bind; [apply stable_modify, grows_console |]. intros _.
  apply stable_bind; [apply stable_call_startStream; intros st; apply grows_call |].
  intros r. destruct (success r); apply stable_modify, grows_console.
Qed.

(** The loop over rows whose start calls settle gets through all of them. *)
Lemma for_of_start_scheduled (svc : StreamingService) (l : list Stream)
    (st : State) :
  streamingService st = Some svc ->
  settle_through svc (engine_calls st) l ->
  exists st',
    for_of l start_scheduled st = (Normal tt, st')
    /\ streamingService st' = Some svc
    /\ engine_calls st' = engine_calls st ++ start_calls l
    /\ exists k, console st' = console st ++ k.
Proof.
  revert st. induction l as [| x l IH]; intros st Hsvc Hsettle.
  - exists st. split; [reflexivity |]. split; [exact Hsvc |].
    split; [| exists []]; symmetry; apply app_nil_r.
  - destruct Hsettle as [Hx Hsettle].
    destruct (startStream svc (engine_calls st) (id x)) as [r | e0] eqn:Hstart;
      [clear Hx | contradiction].
    pose proof (start_scheduled_settled st svc x r Hsvc Hstart) as Hstep.
    set (st1 := with_console
                  (if success r then LogStarted (id x) else ErrStartFailed (id x) (error r))
                  (with_call (CallStart (id x))
                     (with_console (LogStarting (id x) (title x)) st))) in *.
    destruct (IH st1 Hsvc Hsettle) as (st' & Hrun & Hsvc' & Hcalls & [k Hlog]).
    exists st'.
    split; [simpl; unfold bind; rewrite Hstep; exact Hrun |].
    split; [exact Hsvc' |].
    split; [rewrite Hcalls; simpl; rewrite <- app_assoc; reflexivity |].
    exists ([LogStarting (id x) (title x);
             if success r then LogStarted (id x)
             else ErrStartFailed (id x) (error r)] ++ k).
    rewrite Hlog. simpl. rewrite <- !app_assoc. reflexivity.
Qed.

(** A tick gets to the row [C] when the start calls before it settle. *)
Lemma poller_reaches (db : StreamModel) (st : State) (svc : StreamingService)
    (pre : list Stream) (C : Stream) (post : list Stream) :
  streamingService st = Some svc ->
  findScheduledInRange db (DateAt (clock rt (clock_reads st)))
    (Date_of_ms (clock rt (clock_reads st) + SCHEDULE_LOOKAHEAD_SECONDS * 1000))
    = Resolved (pre ++ C :: post) ->
  settle_through svc (engine_calls st) pre ->
  exists st1,
    streamingService st1 = Some svc
    /\ engine_calls st1 = engine_calls st ++ start_calls pre
    /\ (exists k, console st1 = console st ++ k)
    /\ checkScheduledStreams rt db st =
         try_catch (start_scheduled C >> for_of post start_scheduled)
           (fun error => console_error (ErrCheckingScheduled error)) st1.
Proof.
  intros Hsvc Hdb Hsettle.
  assert ((0 <? length (pre ++ C :: post))%nat = true) as Hlen
    by (apply Nat.ltb_lt; rewrite length_app; simpl; lia).
  destruct (for_of_start_scheduled svc pre
              (with_console (LogFound (length (pre ++ C :: post)))
                 (with_query (FindScheduledInRange (DateAt (clock rt (clock_reads st)))
                    (Date_of_ms (clock rt (clock_reads st) + SCHEDULE_LOOKAHEAD_SECONDS * 1000)))
                    (with_clock_read st))) Hsvc Hsettle)
    as (st1 & Hrun & Hsvc1 & Hcalls & [k Hlog]).
  exists st1. split; [exact Hsvc1 |]. split; [exact Hcalls |].
  split; [exists (LogFound (length (pre ++ C :: post)) :: k); rewrite Hlog;
          simpl; rewrite <- app_assoc; reflexivity |].
  unfold checkScheduledStreams, try_catch.
  unfold bind at 1, get. rewrite Hsvc.
  unfold bind at 1, Date_now.
  unfold bind at 1, call_findScheduledInRange. rewrite Hdb. unfold await, ret.
  rewrite Hlen. unfold bind at 1, console_log, modify.
  rewrite for_of_app. unfold bind at 1. rewrite Hrun. reflexivity.
Qed.

(** The turn of [C] and what follows it, from the state the loop is in. *)
Lemma poller_turn (svc : StreamingService) (C : Stream) (post : list Stream)
    (st1 : State) :
  streamingService st1 = Some svc ->
  (exists more,
      engine_calls
        (exec (try_catch (start_scheduled C >> for_of post start_scheduled)
                 (fun error => console_error (ErrCheckingScheduled error))) st1)
        = engine_calls st1 ++ CallStart (id C) :: more)
  /\ (forall e,
        startStream svc (engine_calls st1) (id C)
          = Resolved {| success := false; error := e |} ->
        exists k,
          console
            (exec (try_catch (start_scheduled C >> for_of post start_scheduled)
                     (fun error => console_error (ErrCheckingScheduled error))) st1)
            = console st1 ++ k
          /\ ErrStartFailed (id C) e ∈ k)
  /\ (forall e,
        startStream svc (engine_calls st1) (id C) = Rejected e ->
        (exists k,
            console
              (exec (try_catch (start_scheduled C >> for_of post start_scheduled)
                       (fun error => console_error (ErrCheckingScheduled error))) st1)
              = console st1 ++ k
            /\ ErrCheckingScheduled e ∈ k)
        /\ engine_calls
             (exec (try_catch (start_scheduled C >> for_of post start_scheduled)
                      (fun error => console_error (ErrCheckingScheduled error))) st1)
           = engine_calls st1 ++ [CallStart (id C)]).
Proof.
  intros Hsvc.
  destruct (startStream svc (engine_calls st1) (id C)) as [r | e0] eqn:Hstart.
  - pose proof (start_scheduled_settled st1 svc C r Hsvc Hstart) as Hstep.
    set (st2 := with_console
                  (if success r then LogStarted (id C) else ErrStartFailed (id C) (error r))
                  (with_call (CallStart (id C))
                     (with_console (LogStarting (id C) (title C)) st1))) in *.
    assert (exec (try_catch (start_scheduled C >> for_of post start_scheduled)
                    (fun error => console_error (ErrCheckingScheduled error))) st1
            = exec (try_catch (for_of post start_scheduled)
                      (fun error => console_error (ErrCheckingScheduled error))) st2)
      as ->.
    { unfold exec, try_catch, bind. rewrite Hstep. reflexivity. }
    destruct (grows_rest post st2) as [[k Hk] [more Hmore]].
    split; [| split].
    + exists more. rewrite Hmore. simpl. rewrite <- app_assoc. reflexivity.
    + intros e Heq. injection Heq as ->.
      exists ([LogStarting (id C) (title C); ErrStartFailed (id C) e] ++ k).
      split.
      * rewrite Hk. simpl. rewrite <- !app_assoc. reflexivity.
      * apply elem_of_app. left. right. left.
    + intros e Heq. discriminate Heq.
  - assert (exec (try_catch (start_scheduled C >> for_of post start_scheduled)
                    (fun error => console_error (ErrCheckingScheduled error))) st1
            = with_console (ErrCheckingScheduled e0)
                (with_call (CallStart (id C))
                   (with_console (LogStarting (id C) (title C)) st1)))
      as ->.
    { unfold exec, try_catch, bind, start_scheduled, bind, console_log,
        console_error, modify, call_startStream. simpl.
      rewrite Hsvc, Hstart. reflexivity. }
    split; [| split].
    + exists []. reflexivity.
    + intros e Heq. discriminate Heq.
    + intros e Heq. injection Heq as ->. split; [| reflexivity].
      exists [LogStarting (id C) (title C); ErrCheckingScheduled e].
      split; [simpl; rewrite <- app_assoc; reflexivity | right; left].
Qed.

(** C5, amended: no start failure aborts the periodic loop, for a tick
    always returns normally. Within a tick, every broadcast [C] of the list
    that the model returns gets its start call when the start calls of the
    tick before it settled. If the service reports a failure for [C] in its
    result (success false), the failure is logged and the tick goes on:
    every broadcast [D] after [C] gets its start call, as long as the calls
    between them settle. If the start of [C] is rejected, the error is
    logged by the catch of the tick and that call is the last of the tick.
    When all the start calls settle, the tick starts the whole list, in
    order. *)
Theorem poller_continues_after_reported_failure (db : StreamModel) (st : State) :
  fst (checkScheduledStreams rt db st) = Normal tt
  /\ (forall svc pre C post,
        streamingService st = Some svc ->
        findScheduledInRange db (DateAt (clock rt (clock_reads st)))
          (Date_of_ms (clock rt (clock_reads st) + SCHEDULE_LOOKAHEAD_SECONDS * 1000))
          = Resolved (pre ++ C :: post) ->
        settle_through svc (engine_calls st) pre ->
        (exists more,
            engine_calls (exec (checkScheduledStreams rt db) st)
              = engine_calls st ++ start_calls pre ++ CallStart (id C) :: more)
        /\ (forall e,
              startStream svc (engine_calls st ++ start_calls pre) (id C)
                = Resolved {| success := false; error := e |} ->
              (exists k,
                  console (exec (checkScheduledStreams rt db) st) = console st ++ k
                  /\ ErrStartFailed (id C) e ∈ k)
              /\ forall mid D rest,
                   post = mid ++ D :: rest ->
                   settle_through svc
                     (engine_calls st ++ start_calls (pre ++ [C])) mid ->
                   exists more,
                     engine_calls (exec (checkScheduledStreams rt db) st)
                       = engine_calls st ++ start_calls (pre ++ C :: mid)
                           ++ CallStart (id D) :: more)
        /\ (forall e,
              startStream svc (engine_calls st ++ start_calls pre) (id C)
                = Rejected e ->
              (exists k,
                  console (exec (checkScheduledStreams rt db) st) = console st ++ k
                  /\ ErrCheckingScheduled e ∈ k)
              /\ engine_calls (exec (checkScheduledStreams rt db) st)
                 = engine_calls st ++ start_calls pre ++ [CallStart (id C)]))
  /\ (forall svc streams,
        streamingService st = Some svc ->
        findScheduledInRange db (DateAt (clock rt (clock_reads st)))
          (Date_of_ms (clock rt (clock_reads st) + SCHEDULE_LOOKAHEAD_SECONDS * 1000))
          = Resolved streams ->
        settle_through svc (engine_calls st) streams ->
        engine_calls (exec (checkScheduledStreams rt db) st)
          = engine_calls st ++ start_calls streams).
Proof.
  split; [apply checkScheduledStreams_returns |]. split.
  - intros svc pre C post Hsvc Hdb Hsettle.
    destruct (poller_reaches db st svc pre C post Hsvc Hdb Hsettle)
      as (st1 & Hsvc1 & Hcalls1 & [k1 Hk1] & Hrun).
    destruct (poller_turn svc C post st1 Hsvc1) as ([more Hmore] & Hfail & Hthrow).
    unfold exec in *. rewrite Hrun. rewrite Hcalls1 in *.
    split; [exists more; rewrite Hmore, <- app_assoc; reflexivity |].
    split.
    + intros e Hres. split.
      * destruct (Hfail e Hres) as (k & Hk & Hin).
        exists (k1 ++ k). split; [rewrite Hk, Hk1, <- app_assoc; reflexivity |].
        apply elem_of_app. right. exact Hin.
      * intros mid D rest Hpost Hmid.
        assert (settle_through svc (engine_calls st) (pre ++ C :: mid)) as Hsettle'.
        { apply settle_through_app; [exact Hsettle |].
          split; [rewrite Hres; exact I |].
          unfold start_calls in *. rewrite fmap_app, app_assoc in Hmid. exact Hmid. }
        assert (findScheduledInRange db (DateAt (clock rt (clock_reads st)))
                  (Date_of_ms (clock rt (clock_reads st) + SCHEDULE_LOOKAHEAD_SECONDS * 1000))
                = Resolved ((pre ++ C :: mid) ++ D :: rest)) as Hdb'.
        { rewrite Hdb, Hpost, <- app_assoc. reflexivity. }
        destruct (poller_reaches db st svc (pre ++ C :: mid) D rest Hsvc Hdb' Hsettle')
          as (st1' & Hsvc1' & Hcalls1' & _ & Hrun').
        destruct (poller_turn svc D rest st1' Hsvc1') as ([more' Hmore'] & _ & _).
        unfold exec in Hmore'. rewrite <- Hrun', Hrun in Hmore'.
        exists more'. rewrite Hmore', Hcalls1', <- app_assoc. reflexivity.
    + intros e Hrej. destruct (Hthrow e Hrej) as ((k & Hk & Hin) & Hcalls).
      split.
      * exists (k1 ++ k). split; [rewrite Hk, Hk1, <- app_assoc; reflexivity |].
        apply elem_of_app. right. exact Hin.
      * rewrite Hcalls, <- app_assoc. reflexivity.
  - intros svc streams Hsvc Hdb Hsettle.
    destruct streams as [| x l].
    + unfold exec, checkScheduledStreams, try_catch, bind, get, Date_now,
        call_findScheduledInRange. simpl. rewrite Hsvc, Hdb. simpl.
      symmetry. apply app_nil_r.
    + destruct (for_of_start_scheduled svc (x :: l)
                  (with_console (LogFound (length (x :: l)))
                     (with_query (FindScheduledInRange (DateAt (clock rt (clock_reads st)))
                        (Date_of_ms (clock rt (clock_reads st) + SCHEDULE_LOOKAHEAD_SECONDS * 1000)))
                        (with_clock_read st))) Hsvc Hsettle)
        as (st' & Hrun & _ & Hcalls & _).
      unfold exec, checkScheduledStreams, try_catch.
      unfold bind at 1, get. rewrite Hsvc.
      unfold bind at 1, Date_now.
      unfold bind at 1, call_findScheduledInRange. rewrite Hdb. unfold await, ret.
      change (0 <? length (x :: l))%nat with true. cbv iota.
      unfold bind at 1, console_log, modify. rewrite Hrun. exact Hcalls.
Qed.

End Poller.

(** [poller_continues_after_reported_failure] at work: the start of "C"
    reports "rtmp unreachable"; the failure is logged and "D" is started
    after it. *)
Lemma poller_continues_after_reported_failure_witness :
  (exists k,
      console
        (exec (checkScheduledStreams Fixture.rt
                 (Stream_over [Fixture.due_C; Fixture.due_D]))
           (Fixture.ready Fixture.start_reports_C))
        = console (Fixture.ready Fixture.start_reports_C) ++ k
      /\ ErrStartFailed "C" (Some "rtmp unreachable") ∈ k)
  /\ exists more,
       engine_calls
         (exec (checkScheduledStreams Fixture.rt
                  (Stream_over [Fixture.due_C; Fixture.due_D]))
            (Fixture.ready Fixture.start_reports_C))
         = CallStart "C" :: CallStart "D" :: more.
Proof.
  destruct (poller_continues_after_reported_failure Fixture.rt
              (Stream_over [Fixture.due_C; Fixture.due_D])
              (Fixture.ready Fixture.start_reports_C))
    as (_ & Hturn & _).
  destruct (Hturn Fixture.start_reports_C [] Fixture.due_C [Fixture.due_D])
    as (_ & Hfail & _).
  - vm_compute. reflexivity.
  - vm_compute. reflexivity.
  - exact I.
  - destruct (Hfail (Some "rtmp unreachable")) as (Hlog & Hnext);
      [vm_compute; reflexivity |].
    split; [exact Hlog |].
    destruct (Hnext [] Fixture.due_D [] eq_refl I) as [more Hmore].
    exists more. rewrite Hmore. vm_compute. reflexivity.
Defined.

(** C5 as first stated fails when the start of "C" is rejected rather than
    reported: the tick's catch logs the error and "D", due in the same tick
    and returned by the same query, is never started. *)
Lemma rejected_start_skips_the_rest :
  findScheduledInRange (Stream_over [Fixture.due_C; Fixture.due_D])
    (DateAt 1700003601000) (DateAt 1700003661000)
    = Resolved [Fixture.due_C; Fixture.due_D]
  /\ queries
       (exec (checkScheduledStreams Fixture.rt
                (Stream_over [Fixture.due_C; Fixture.due_D]))
          (Fixture.ready Fixture.start_rejects_C))
     = queries (Fixture.ready Fixture.start_rejects_C)
         ++ [FindScheduledInRange (DateAt 1700003601000) (DateAt 1700003661000)]
  /\ engine_calls
       (exec (checkScheduledStreams Fixture.rt
                (Stream_over [Fixture.due_C; Fixture.due_D]))
          (Fixture.ready Fixture.start_rejects_C))
     = [CallStart "C"]
  /\ console
       (exec (checkScheduledStreams Fixture.rt
                (Stream_over [Fixture.due_C; Fixture.due_D]))
          (Fixture.ready Fixture.start_rejects_C))
     = console (Fixture.ready Fixture.start_rejects_C)
         ++ [LogFound 2; LogStarting "C" "C"; ErrCheckingScheduled "rtmp unreachable"].
Proof. repeat split; vm_compute; reflexivity. Qed.

Section Window.

Context (rt : Runtime).

Lemma elem_of_due_in_range (rows : list Stream) (a b : Z) (s : Stream) :
  s ∈ List.filter (due_in_range (DateAt a) (DateAt b)) rows
  <-> s ∈ rows /\ status s = Scheduled
      /\ exists t, schedule_time s = Some t /\ (a <= t <= b)%Z.
Proof.
  rewrite !list_elem_of_In, filter_In. unfold due_in_range.
  split.
  - intros [Hin Hdue]. split; [exact Hin |].
    destruct (status s); try discriminate Hdue.
    destruct (schedule_time s) as [t |]; try discriminate Hdue.
    split; [reflexivity |]. exists t. split; [reflexivity | lia].
  - intros (Hin & -> & t & -> & Hrange). split; [exact Hin |].
    apply andb_true_iff. split; apply Z.leb_le; lia.
Qed.

#[local] Instance same_queries_preorder : PreOrder same_queries.
Proof.
  split; [intros st; reflexivity |].
  intros a b c Hab Hbc. unfold same_queries in *. congruence.
Qed.

Lemma same_queries_start_scheduled (s : Stream) :
  stable same_queries (start_scheduled s).
Proof.
  unfold start_scheduled, console_log, console_error.
  apply stable_bind; [apply stable_modify; reflexivity |]. intros _.
  apply stable_bind; [apply stable_call_startStream; reflexivity |]. intros r.
  destruct (success r); apply stable_modify; reflexivity.
Qed.

(** C6: a poller tick reads the clock once and asks the Stream model for
    the range from now to now + SCHEDULE_LOOKAHEAD_SECONDS (60) seconds; it
    goes on with exactly the rows the model returns. Over a table, the model
    returns the scheduled rows whose time is in that range, both ends
    included: a row due exactly now or exactly sixty seconds from now is
    returned, a row due one second later is not. *)
Theorem poller_window_inclusive (rows : list Stream) (st : State)
    (svc : StreamingService) (now : Z) :
  streamingService st = Some svc ->
  now = clock rt (clock_reads st) ->
  (- MAX_TIME_VALUE <= now /\ now + 60000 <= MAX_TIME_VALUE)%Z ->
  SCHEDULE_LOOKAHEAD_SECONDS = 60%Z
  /\ queries (exec (checkScheduledStreams rt (Stream_over rows)) st)
     = queries st ++ [FindScheduledInRange (DateAt now) (DateAt (now + 60 * 1000))]
  /\ checkScheduledStreams rt (Stream_over rows) st =
       try_catch
         (let streams :=
            List.filter (due_in_range (DateAt now) (DateAt (now + 60 * 1000))) rows in
          if (0 <? length streams)%nat then
            console_log (LogFound (length streams)) >> for_of streams start_scheduled
          else ret tt)
         (fun error => console_error (ErrCheckingScheduled error))
         (with_query (FindScheduledInRange (DateAt now) (DateAt (now + 60 * 1000)))
            (with_clock_read st))
  /\ (forall s,
        s ∈ List.filter (due_in_range (DateAt now) (DateAt (now + 60 * 1000))) rows
        <-> s ∈ rows /\ status s = Scheduled
            /\ exists t, schedule_time s = Some t /\ (now <= t <= now + 60 * 1000)%Z)
  /\ forall s, s ∈ rows -> status s = Scheduled ->
       (schedule_time s = Some now ->
          s ∈ List.filter (due_in_range (DateAt now) (DateAt (now + 60 * 1000))) rows)
       /\ (schedule_time s = Some (now + 60 * 1000)%Z ->
          s ∈ List.filter (due_in_range (DateAt now) (DateAt (now + 60 * 1000))) rows)
       /\ (schedule_time s = Some (now + 60 * 1000 + 1000)%Z ->
          s ∉ List.filter (due_in_range (DateAt now) (DateAt (now + 60 * 1000))) rows).
Proof.
  intros Hsvc Hnow Hrange.
  assert (Date_of_ms (now + SCHEDULE_LOOKAHEAD_SECONDS * 1000) = DateAt (now + 60 * 1000))
    as Hlook.
  { unfold Date_of_ms, SCHEDULE_LOOKAHEAD_SECONDS.
    destruct (Z.leb_spec (Z.abs (now + 60 * 1000)) MAX_TIME_VALUE) as [_ | Hgt];
      [reflexivity |].
    unfold MAX_TIME_VALUE in *. lia. }
  assert (checkScheduledStreams rt (Stream_over rows) st =
       try_catch
         (let streams :=
            List.filter (due_in_range (DateAt now) (DateAt (now + 60 * 1000))) rows in
          if (0 <? length streams)%nat then
            console_log (LogFound (length streams)) >> for_of streams start_scheduled
          else ret tt)
         (fun error => console_error (ErrCheckingScheduled error))
         (with_query (FindScheduledInRange (DateAt now) (DateAt (now + 60 * 1000)))
            (with_clock_read st))) as Htick.
  { unfold checkScheduledStreams, try_catch, bind, get, Date_now,
      call_findScheduledInRange. simpl.
    rewrite Hsvc, <- Hnow, Hlook. reflexivity. }
  split; [reflexivity |].
  split.
  { unfold exec. rewrite Htick.
    match goal with |- context [try_catch ?body ?handler ?s] =>
      assert (stable same_queries (try_catch body handler)) as Hq
    end.
    { apply stable_try_catch; [| intros e; apply stable_modify; reflexivity].
      simpl. match goal with |- context [if ?c then _ else _] => destruct c end;
        [| apply stable_ret].
      apply stable_bind; [apply stable_modify; reflexivity |]. intros _.
      apply stable_for_of. intros s _. apply same_queries_start_scheduled. }
    apply Hq. }
  split; [exact Htick |].
  split; [intros s; apply elem_of_due_in_range |].
  intros s Hin Hst. repeat split.
  - intros Ht. apply elem_of_due_in_range. split; [exact Hin |].
    split; [exact Hst |]. exists now. split; [exact Ht | lia].
  - intros Ht. apply elem_of_due_in_range. split; [exact Hin |].
    split; [exact Hst |]. exists (now + 60 * 1000)%Z. split; [exact Ht | lia].
  - intros Ht Hs. apply elem_of_due_in_range in Hs as (_ & _ & t & Ht' & Hr).
    rewrite Ht in Ht'. injection Ht' as <-. lia.
Qed.

End Window.

(** [poller_window_inclusive] at work on the tick that follows [init],
    whose reading of the clock is 1700003601000: the query is traced with
    both ends of the range, the rows due at either end are returned and the
    row due one second past the horizon is not. *)
Lemma poller_window_inclusive_witness :
  queries
    (exec (checkScheduledStreams Fixture.rt
             (Stream_over [Fixture.at_now; Fixture.at_horizon; Fixture.past_horizon]))
       (Fixture.ready Fixture.healthy))
  = queries (Fixture.ready Fixture.healthy)
      ++ [FindScheduledInRange (DateAt 1700003601000) (DateAt (1700003601000 + 60 * 1000))]
  /\ Fixture.at_now
       ∈ List.filter
           (due_in_range (DateAt 1700003601000) (DateAt (1700003601000 + 60 * 1000)))
           [Fixture.at_now; Fixture.at_horizon; Fixture.past_horizon]
  /\ Fixture.at_horizon
       ∈ List.filter
           (due_in_range (DateAt 1700003601000) (DateAt (1700003601000 + 60 * 1000)))
           [Fixture.at_now; Fixture.at_horizon; Fixture.past_horizon]
  /\ Fixture.past_horizon
       ∉ List.filter
           (due_in_range (DateAt 1700003601000) (DateAt (1700003601000 + 60 * 1000)))
           [Fixture.at_now; Fixture.at_horizon; Fixture.past_horizon].
Proof.
  destruct (poller_window_inclusive Fixture.rt
              [Fixture.at_now; Fixture.at_horizon; Fixture.past_horizon]
              (Fixture.ready Fixture.healthy) Fixture.healthy 1700003601000)
    as (_ & Hq & _ & _ & Hedges).
  - vm_compute. reflexivity.
  - vm_compute. reflexivity.
  - unfold MAX_TIME_VALUE. lia.
  - split; [exact Hq |].
    split; [| split].
    + destruct (Hedges Fixture.at_now) as (H & _ & _);
        [left | reflexivity | apply H; reflexivity].
    + destruct (Hedges Fixture.at_horizon) as (_ & H & _);
        [right; left | reflexivity | apply H; reflexivity].
    + destruct (Hedges Fixture.past_horizon) as (_ & _ & H);
        [right; right; left | reflexivity | apply H; reflexivity].
Defined.

(** * Further properties of the module *)

(** ** No exception leaves an entry point *)

Lemma returns_ret {A} (a : A) : returns (ret a).
Proof. intros st. eexists _, _. reflexivity. Qed.

Lemma returns_get {A} (f : State -> A) : returns (get f).
Proof. intros st. eexists _, _. reflexivity. Qed.

Lemma returns_modify (f : State -> State) : returns (modify f).
Proof. intros st. eexists _, _. reflexivity. Qed.

Lemma returns_bind {A B} (m : M A) (k : A -> M B) :
  returns m -> (forall a, returns (k a)) -> returns (bind m k).
Proof.
  intros Hm Hk st. destruct (Hm st) as (a & st1 & Hrun).
  destruct (Hk a st1) as (b & st2 & Hrun').
  exists b, st2. unfold bind. rewrite Hrun. exact Hrun'.
Qed.

(** A [try] whose handler completes normally completes normally, whatever
    its body does. *)
Lemma returns_try_catch {A} (body : M A) (handler : JsError -> M A) :
  (forall e, returns (handler e)) -> returns (try_catch body handler).
Proof.
  intros Hh st. unfold try_catch.
  destruct (body st) as [[a | e] st1].
  - eexists _, _. reflexivity.
  - apply Hh.
Qed.

Section Returns.

Context (rt : Runtime).

Lemma returns_scheduleStreamTermination (i : StreamId) (v : Js.Val) :
  returns (scheduleStreamTermination rt i v).
Proof.
  unfold scheduleStreamTermination, console_error, console_log.
  apply returns_bind; [apply returns_get |]. intros [svc |]; [| apply returns_modify].
  match goal with |- context [if ?c then _ else _] => destruct c end;
    [apply returns_modify |].
  apply returns_bind; [apply returns_get |]. intros pending.
  apply returns_bind.
  { destruct pending; [apply returns_modify | apply returns_ret]. }
  intros _. apply returns_bind; [apply returns_modify |]. intros _.
  apply returns_bind; [| intros h; apply returns_modify].
  intros st. eexists _, _. reflexivity.
Qed.

Lemma returns_cancelStreamTermination (i : StreamId) :
  returns (cancelStreamTermination i).
Proof.
  unfold cancelStreamTermination, clearTimeout, console_log.
  apply returns_bind; [apply returns_get |]. intros [h |]; [| apply returns_ret].
  repeat (apply returns_bind; [apply returns_modify |]; intros _).
  apply returns_ret.
Qed.

Lemma returns_fire (h : TimerId) : returns (fire h).
Proof.
  unfold fire, terminate.
  apply returns_bind; [apply returns_get |]. intros [t |]; [| apply returns_ret].
  apply returns_bind; [apply returns_modify |]. intros _.
  apply returns_try_catch. intros e. apply returns_modify.
Qed.

Lemma returns_checkScheduledStreams (db : StreamModel) :
  returns (checkScheduledStreams rt db).
Proof. apply returns_try_catch. intros e. apply returns_modify. Qed.

Lemma returns_checkStreamDurations (db : StreamModel) :
  returns (checkStreamDurations rt db).
Proof. apply returns_try_catch. intros e. apply returns_modify. Qed.

Lemma returns_init (svc : StreamingService) (db : StreamModel) :
  returns (init rt svc db).
Proof.
  unfold init, console_log.
  apply returns_bind; [apply returns_get |]. intros [|]; [apply returns_modify |].
  repeat (apply returns_bind; [apply returns_modify |]; intros _).
  apply returns_bind; [apply returns_checkScheduledStreams |]. intros _.
  apply returns_checkStreamDurations.
Qed.

(** X1: whatever the service and the Stream model do (resolve, report a
    failure, reject), [init], both ticks, the timer closure and the three
    exported functions complete normally: every exception is caught inside. *)
Theorem entry_points_return (svc : StreamingService) (db : StreamModel)
    (i : StreamId) (v : Js.Val) (h : TimerId) (st : State) :
  (exists st', init rt svc db st = (Normal tt, st'))
  /\ (exists st', checkScheduledStreams rt db st = (Normal tt, st'))
  /\ (exists st', checkStreamDurations rt db st = (Normal tt, st'))
  /\ (exists st', fire h st = (Normal tt, st'))
  /\ (exists st', scheduleStreamTermination rt i v st = (Normal tt, st'))
  /\ (exists b st', cancelStreamTermination i st = (Normal b, st'))
  /\ (exists b st', handleStreamStopped i st = (Normal b, st')).
Proof.
  repeat split.
  - destruct (returns_init svc db st) as ([] & st' & H). eauto.
  - destruct (returns_checkScheduledStreams db st) as ([] & st' & H). eauto.
  - destruct (returns_checkStreamDurations db st) as ([] & st' & H). eauto.
  - destruct (returns_fire h st) as ([] & st' & H). eauto.
  - destruct (returns_scheduleStreamTermination i v st) as ([] & st' & H). eauto.
  - apply returns_cancelStreamTermination.
  - apply returns_cancelStreamTermination.
Qed.

End Returns.

(** ** What the ticks leave alone *)

Section Ambient.

Context (rt : Runtime) {R : State -> State -> Prop} `{!PreOrder R}.

Hypothesis Rconsole : forall e st, R st (with_console e st).

Lemma ambient_start_scheduled (s : Stream) :
  (forall i st, R st (with_call (CallStart i) st)) ->
  stable R (start_scheduled s).
Proof.
  intros Rstart. unfold start_scheduled, console_log, console_error.
  apply stable_bind; [apply stable_modify, Rconsole |]. intros _.
  apply stable_bind; [apply stable_call_startStream, Rstart |]. intros r.
  destruct (success r); apply stable_modify, Rconsole.
Qed.

Lemma ambient_checkScheduledStreams (db : StreamModel) :
  (forall st, R st (with_clock_read st)) ->
  (forall q st, R st (with_query q st)) ->
  (forall i st, R st (with_call (CallStart i) st)) ->
  stable R (checkScheduledStreams rt db).
Proof.
  intros Rclock Rquery Rstart. unfold checkScheduledStreams, console_log, console_error.
  apply stable_try_catch; [| intros e; apply stable_modify, Rconsole].
  apply stable_bind; [apply stable_get |]. intros [svc |];
    [| apply stable_modify, Rconsole].
  apply stable_bind; [intros st; apply Rclock |]. intros now.
  apply stable_bind; [apply stable_call_findScheduledInRange, Rquery |].
  intros streams. destruct (0 <? length streams)%nat; [| apply stable_ret].
  apply stable_bind; [apply stable_modify, Rconsole |]. intros _.
  apply stable_for_of. intros s _. apply ambient_start_scheduled, Rstart.
Qed.

Lemma ambient_check_duration (s : Stream) :
  (forall st, R st (with_clock_read st)) ->
  (forall i st, R st (with_call (CallStop i) st)) ->
  (forall i v, stable R (scheduleStreamTermination rt i v)) ->
  stable R (check_duration rt s).
Proof.
  intros Rclock Rstop Rarm. unfold check_duration, console_log.
  apply stable_bind; [apply stable_get |]. intros armed.
  match goal with |- context [if ?c then _ else _] => destruct c end;
    [| apply stable_ret].
  apply stable_bind; [intros st; apply Rclock |]. intros now.
  match goal with |- context [if ?c then _ else _] => destruct c end.
  - apply stable_bind; [apply stable_modify, Rconsole |]. intros _.
    apply stable_bind; [apply stable_call_stopStream, Rstop |]. intros _.
    apply stable_ret.
  - apply Rarm.
Qed.

Lemma ambient_checkStreamDurations (db : StreamModel) :
  (forall st, R st (with_clock_read st)) ->
  (forall q st, R st (with_query q st)) ->
  (forall i st, R st (with_call (CallStop i) st)) ->
  (forall i v, stable R (scheduleStreamTermination rt i v)) ->
  stable R (checkStreamDurations rt db).
Proof.
  intros Rclock Rquery Rstop Rarm. unfold checkStreamDurations, console_error.
  apply stable_try_catch; [| intros e; apply stable_modify, Rconsole].
  apply stable_bind; [apply stable_get |]. intros [svc |];
    [| apply stable_modify, Rconsole].
  apply stable_bind; [apply stable_call_findAll, Rquery |]. intros l.
  apply stable_for_of. intros s _. apply ambient_check_duration; assumption.
Qed.

End Ambient.

#[local] Instance same_setup_preorder : PreOrder same_setup.
Proof.
  split; [intros st; repeat split |].
  intros a b c (H1 & H2 & H3 & H4) (H5 & H6 & H7 & H8).
  repeat split; congruence.
Qed.

#[local] Instance same_registry_preorder : PreOrder same_registry.
Proof.
  split; [intros st; repeat split |].
  intros a b c (H1 & H2 & H3) (H4 & H5 & H6). repeat split; congruence.
Qed.

#[local] Instance only_calls_preorder (P : EngineCall -> Prop) :
  PreOrder (only_calls P).
Proof.
  split.
  - intros st. exists []. split; [symmetry; apply app_nil_r | constructor].
  - intros a b c (l1 & H1 & P1) (l2 & H2 & P2). exists (l1 ++ l2).
    split; [rewrite H2, H1; symmetry; apply app_assoc | apply Forall_app; auto].
Qed.

#[local] Instance poller_frame_preorder : PreOrder poller_frame.
Proof.
  split.
  - intros st. split; reflexivity.
  - intros a b c [H1 H2] [H3 H4]. split; etransitivity; eassumption.
Qed.

Lemma only_calls_frame (P : EngineCall -> Prop) (st st' : State) :
  engine_calls st' = engine_calls st -> only_calls P st st'.
Proof.
  intros H. exists []. split; [rewrite H; symmetry; apply app_nil_r | constructor].
Qed.

Lemma only_calls_call (P : EngineCall -> Prop) (c : EngineCall) (st : State) :
  P c -> only_calls P st (with_call c st).
Proof. intros H. exists [c]. split; [reflexivity | repeat constructor; exact H]. Qed.

#[local] Existing Instance same_queries_preorder.

Section Setup.

Context (rt : Runtime).

Lemma same_setup_scheduleStreamTermination (i : StreamId) (v : Js.Val) :
  stable same_setup (scheduleStreamTermination rt i v).
Proof.
  intros st. unfold exec, scheduleStreamTermination, bind, get. simpl.
  destruct (streamingService st) eqn:Hsvc; [| repeat split].
  match goal with |- context [if ?c then _ else _] => destruct c end;
    [repeat split |].
  destruct (scheduledTerminations st !! i); repeat split.
Qed.

Lemma same_setup_checkScheduledStreams (db : StreamModel) :
  stable same_setup (checkScheduledStreams rt db).
Proof.
  apply (ambient_checkScheduledStreams rt (R := same_setup)); intros; repeat split.
Qed.

Lemma same_setup_checkStreamDurations (db : StreamModel) :
  stable same_setup (checkStreamDurations rt db).
Proof.
  apply (ambient_checkStreamDurations rt (R := same_setup)); intros;
    try (repeat split; fail).
  apply same_setup_scheduleStreamTermination.
Qed.

(** X2: a poller tick never touches the registry or a timer, whatever the
    model returns and the service answers, and all it asks of the service
    is to start streams. *)
Theorem poller_leaves_registry (db : StreamModel) (st : State) :
  scheduledTerminations (exec (checkScheduledStreams rt db) st)
    = scheduledTerminations st
  /\ timers (exec (checkScheduledStreams rt db) st) = timers st
  /\ next_timer (exec (checkScheduledStreams rt db) st) = next_timer st
  /\ exists calls,
       engine_calls (exec (checkScheduledStreams rt db) st)
         = engine_calls st ++ calls
       /\ Forall is_start calls.
Proof.
  assert (stable poller_frame (checkScheduledStreams rt db)) as H.
  { apply (ambient_checkScheduledStreams rt (R := poller_frame)); intros;
      try (split; [repeat split | apply only_calls_frame; reflexivity]).
    split; [repeat split | apply only_calls_call; exact I]. }
  destruct (H st) as [(Hr & Ht & Hn) Hc]. auto.
Qed.

(** The query a tick makes once the service is set. *)
Lemma queries_checkScheduledStreams (db : StreamModel) (st : State)
    (svc : StreamingService) :
  streamingService st = Some svc ->
  queries (exec (checkScheduledStreams rt db) st) =
    queries st ++
      [FindScheduledInRange
         (DateAt (clock rt (clock_reads st)))
         (Date_of_ms (clock rt (clock_reads st) + SCHEDULE_LOOKAHEAD_SECONDS * 1000))].
Proof.
  intros Hsvc.
  unfold exec, checkScheduledStreams, try_catch, bind, get, Date_now,
    call_findScheduledInRange. simpl. rewrite Hsvc.
  destruct (findScheduledInRange db _ _) as [streams | e]; simpl; [| reflexivity].
  destruct (0 <? length streams)%nat; [| reflexivity].
  unfold console_log, modify.
  match goal with |- context [for_of ?l ?b ?s] =>
    pose proof (stable_for_of (R := same_queries) l b
                  (fun x _ => same_queries_start_scheduled x) s) as Hq
  end.
  unfold exec, same_queries in Hq.
  destruct (for_of streams start_scheduled _) as [[[] | e] st1]; simpl in *;
    rewrite Hq; reflexivity.
Qed.

Lemma same_queries_scheduleStreamTermination (i : StreamId) (v : Js.Val) :
  stable same_queries (scheduleStreamTermination rt i v).
Proof.
  intros st. unfold exec, scheduleStreamTermination, bind, get. simpl.
  destruct (streamingService st) eqn:Hsvc; [| reflexivity].
  match goal with |- context [if ?c then _ else _] => destruct c end;
    [reflexivity |].
  destruct (scheduledTerminations st !! i); reflexivity.
Qed.

Lemma queries_checkStreamDurations (db : StreamModel) (st : State)
    (svc : StreamingService) :
  streamingService st = Some svc ->
  queries (exec (checkStreamDurations rt db) st) =
    queries st ++ [FindAll Js.Null Live].
Proof.
  intros Hsvc.
  unfold exec, checkStreamDurations, try_catch, bind, get, call_findAll. simpl.
  rewrite Hsvc.
  destruct (findAll db Js.Null Live) as [l | e]; simpl; [| reflexivity].
  match goal with |- context [for_of ?l ?b ?s] =>
    pose proof (stable_for_of (R := same_queries) l b) as Hq;
    specialize (Hq (fun x _ =>
      ambient_check_duration rt (R := same_queries)
        (fun _ _ => eq_refl) x (fun _ => eq_refl) (fun _ _ => eq_refl)
        same_queries_scheduleStreamTermination) s)
  end.
  unfold exec, same_queries in Hq.
  destruct (for_of l (check_duration rt) _) as [[[] | e] st1]; simpl in *;
    rewrite Hq; reflexivity.
Qed.

(** The first [init] comes down to the two ticks, run one after the other
    from the state with the service, the flag and the periodic tasks set. *)
Lemma init_unfolds (svc : StreamingService) (db : StreamModel) (st : State) :
  initialized st = false ->
  exec (init rt svc db) st =
    exec (checkStreamDurations rt db)
      (exec (checkScheduledStreams rt db)
         (with_intervals (PollSchedules, 60 * 1000)%Z (WatchDurations, 60 * 1000)%Z
            (with_console LogInitialized (with_service svc st)))).
Proof.
  intros Hinit.
  unfold exec at 1, init, bind at 1, get. simpl. rewrite Hinit.
  unfold bind, console_log, modify. simpl.
  destruct (returns_checkScheduledStreams rt db
              (with_intervals (PollSchedules, 60 * 1000)%Z (WatchDurations, 60 * 1000)%Z
                 (with_console LogInitialized (with_service svc st))))
    as ([] & st1 & Hrun).
  unfold exec. rewrite Hrun. reflexivity.
Qed.

(** X3: the first [init] stores the service, sets the flag, registers both
    periodic tasks at 60 000 ms and runs one tick of each at once: the
    Stream model is asked for the scheduled range, then for the live rows. *)
Theorem init_sets_up (svc : StreamingService) (db : StreamModel) (st : State) :
  initialized st = false ->
  streamingService (exec (init rt svc db) st) = Some svc
  /\ initialized (exec (init rt svc db) st) = true
  /\ scheduleIntervalId (exec (init rt svc db) st) = Some (PollSchedules, 60000%Z)
  /\ durationIntervalId (exec (init rt svc db) st) = Some (WatchDurations, 60000%Z)
  /\ queries (exec (init rt svc db) st) =
       queries st ++
         [FindScheduledInRange
            (DateAt (clock rt (clock_reads st)))
            (Date_of_ms (clock rt (clock_reads st) + SCHEDULE_LOOKAHEAD_SECONDS * 1000));
          FindAll Js.Null Live].
Proof.
  intros Hinit. rewrite (init_unfolds svc db st Hinit).
  set (st0 := with_intervals (PollSchedules, 60 * 1000)%Z (WatchDurations, 60 * 1000)%Z
                (with_console LogInitialized (with_service svc st))).
  set (st1 := exec (checkScheduledStreams rt db) st0).
  destruct (same_setup_checkScheduledStreams db st0) as (S1 & S2 & S3 & S4).
  destruct (same_setup_checkStreamDurations db st1) as (T1 & T2 & T3 & T4).
  fold st1 in S1, S2, S3, S4.
  split; [rewrite T1, S1; reflexivity |].
  split; [rewrite T2, S2; reflexivity |].
  split; [rewrite T3, S3; reflexivity |].
  split; [rewrite T4, S4; reflexivity |].
  rewrite (queries_checkStreamDurations db st1 svc) by (rewrite S1; reflexivity).
  unfold st1. rewrite (queries_checkScheduledStreams db st0 svc) by reflexivity.
  simpl. rewrite <- app_assoc. reflexivity.
Qed.

(** X4: [init] is idempotent: once it has run, from whatever state, a
    second call with any other service only logs. The service in place, the
    periodic tasks, the registry and the timers are not touched and no tick
    is run. *)
Theorem init_twice_only_logs (svc svc' : StreamingService) (db db' : StreamModel)
    (st : State) :
  init rt svc' db' (exec (init rt svc db) st) =
    (Normal tt, with_console LogAlreadyInitialized (exec (init rt svc db) st)).
Proof.
  assert (initialized (exec (init rt svc db) st) = true) as Hdone.
  { destruct (initialized st) eqn:Hinit.
    - unfold exec, init, bind, get. simpl. rewrite Hinit. exact Hinit.
    - rewrite (init_unfolds svc db st Hinit).
      destruct (same_setup_checkStreamDurations db
                  (exec (checkScheduledStreams rt db)
                     (with_intervals (PollSchedules, 60 * 1000)%Z
                        (WatchDurations, 60 * 1000)%Z
                        (with_console LogInitialized (with_service svc st)))))
        as (_ & -> & _).
      destruct (same_setup_checkScheduledStreams db
                  (with_intervals (PollSchedules, 60 * 1000)%Z
                     (WatchDurations, 60 * 1000)%Z
                     (with_console LogInitialized (with_service svc st))))
        as (_ & -> & _).
      reflexivity. }
  unfold init at 1, bind, get. simpl. rewrite Hdone. reflexivity.
Qed.

End Setup.

(** [init_sets_up] at work on the module as loaded. *)
Lemma init_sets_up_witness :
  streamingService (exec (init Fixture.rt Fixture.healthy (Stream_over [])) initial_state)
    = Some Fixture.healthy
  /\ initialized (exec (init Fixture.rt Fixture.healthy (Stream_over [])) initial_state)
     = true
  /\ queries (exec (init Fixture.rt Fixture.healthy (Stream_over [])) initial_state)
     = [FindScheduledInRange (DateAt 1700003600000) (DateAt 1700003660000);
        FindAll Js.Null Live].
Proof.
  destruct (init_sets_up Fixture.rt Fixture.healthy (Stream_over []) initial_state)
    as (Hsvc & Hinit & _ & _ & Hq).
  - reflexivity.
  - split; [exact Hsvc |]. split; [exact Hinit |]. rewrite Hq. reflexivity.
Defined.

(** ** Before [init] *)

Section Dormant.

Context (rt : Runtime).

Lemma dormant_react (ev : Event) (st : State) :
  is_Init ev = false -> dormant st -> dormant (react rt ev st).
Proof.
  intros Hev (Hsvc & Hinit & Hreg & Htim & Hcalls & Hq).
  destruct ev as [svc db | db | db | h | i v | i | i]; try discriminate Hev; simpl.
  - unfold exec, checkScheduledStreams, try_catch, bind, get. simpl.
    rewrite Hsvc. repeat split; assumption.
  - unfold exec, checkStreamDurations, try_catch, bind, get. simpl.
    rewrite Hsvc. repeat split; assumption.
  - unfold exec, fire, bind, get. simpl. rewrite Htim, lookup_empty.
    repeat split; assumption.
  - unfold exec, scheduleStreamTermination, bind, get. simpl.
    rewrite Hsvc. repeat split; assumption.
  - unfold exec, cancelStreamTermination, bind, get. simpl.
    rewrite Hreg, lookup_empty. repeat split; assumption.
  - unfold exec, handleStreamStopped, cancelStreamTermination, bind, get. simpl.
    rewrite Hreg, lookup_empty. repeat split; assumption.
Qed.

(** X5: until [init] is called nothing happens but logging: whatever ticks,
    timer events and calls of the exported functions come first, the
    registry and the queue of timers stay empty, the service is not set, and
    neither the service nor the Stream model is ever called. *)
Theorem nothing_happens_before_init (evs : list Event) :
  Forall (fun ev => is_Init ev = false) evs ->
  streamingService (run rt evs initial_state) = None
  /\ initialized (run rt evs initial_state) = false
  /\ scheduledTerminations (run rt evs initial_state) = ∅
  /\ timers (run rt evs initial_state) = ∅
  /\ engine_calls (run rt evs initial_state) = []
  /\ queries (run rt evs initial_state) = [].
Proof.
  intros Hevs.
  assert (forall st, dormant st -> dormant (run rt evs st)) as H.
  { induction Hevs as [| ev evs Hev _ IH]; intros st Hst; simpl.
    - exact Hst.
    - apply IH, dormant_react; assumption. }
  apply H. repeat split.
Qed.

End Dormant.

(** [nothing_happens_before_init] at work on both ticks, an arming, a
    cancellation and a timer event. *)
Lemma nothing_happens_before_init_witness :
  streamingService
    (run Fixture.rt
       [PollerTick (Stream_over [Fixture.due_C]);
        WatchdogTick (Stream_over [Fixture.live_A]);
        Arm "A" (Js.Num 10); TimerFires 0; Cancel "A"; Stopped "A"]
       initial_state) = None
  /\ scheduledTerminations
       (run Fixture.rt
          [PollerTick (Stream_over [Fixture.due_C]);
           WatchdogTick (Stream_over [Fixture.live_A]);
           Arm "A" (Js.Num 10); TimerFires 0; Cancel "A"; Stopped "A"]
          initial_state) = ∅
  /\ engine_calls
       (run Fixture.rt
          [PollerTick (Stream_over [Fixture.due_C]);
           WatchdogTick (Stream_over [Fixture.live_A]);
           Arm "A" (Js.Num 10); TimerFires 0; Cancel "A"; Stopped "A"]
          initial_state) = [].
Proof.
  destruct (nothing_happens_before_init Fixture.rt
              [PollerTick (Stream_over [Fixture.due_C]);
               WatchdogTick (Stream_over [Fixture.live_A]);
               Arm "A" (Js.Num 10); TimerFires 0; Cancel "A"; Stopped "A"])
    as (Hsvc & _ & Hreg & _ & Hcalls & _).
  - repeat constructor.
  - split; [exact Hsvc |]. split; [exact Hreg | exact Hcalls].
Defined.

(** ** A failing Stream model *)

Section Repository.

Context (rt : Runtime).

(** X6: when the Stream model rejects the query of a tick, the tick logs the
    error and ends there: the query and the reading of the clock are all
    that happened, the service is not called and nothing is armed. *)
Theorem rejected_query_ends_tick (db : StreamModel) (st : State)
    (svc : StreamingService) (e1 e2 : JsError) :
  streamingService st = Some svc ->
  findScheduledInRange db
    (DateAt (clock rt (clock_reads st)))
    (Date_of_ms (clock rt (clock_reads st) + SCHEDULE_LOOKAHEAD_SECONDS * 1000))
    = Rejected e1 ->
  findAll db Js.Null Live = Rejected e2 ->
  checkScheduledStreams rt db st =
    (Normal tt,
     with_console (ErrCheckingScheduled e1)
       (with_query
          (FindScheduledInRange
             (DateAt (clock rt (clock_reads st)))
             (Date_of_ms (clock rt (clock_reads st) + SCHEDULE_LOOKAHEAD_SECONDS * 1000)))
          (with_clock_read st)))
  /\ checkStreamDurations rt db st =
       (Normal tt,
        with_console (ErrCheckingDurations e2)
          (with_query (FindAll Js.Null Live) st))
  /\ engine_calls (exec (checkScheduledStreams rt db) st) = engine_calls st
  /\ engine_calls (exec (checkStreamDurations rt db) st) = engine_calls st
  /\ scheduledTerminations (exec (checkStreamDurations rt db) st)
     = scheduledTerminations st.
Proof.
  intros Hsvc H1 H2.
  assert (checkScheduledStreams rt db st =
    (Normal tt,
     with_console (ErrCheckingScheduled e1)
       (with_query
          (FindScheduledInRange
             (DateAt (clock rt (clock_reads st)))
             (Date_of_ms (clock rt (clock_reads st) + SCHEDULE_LOOKAHEAD_SECONDS * 1000)))
          (with_clock_read st)))) as Hp.
  { unfold checkScheduledStreams, try_catch, bind, get, Date_now,
      call_findScheduledInRange. simpl. rewrite Hsvc, H1. reflexivity. }
  assert (checkStreamDurations rt db st =
       (Normal tt,
        with_console (ErrCheckingDurations e2)
          (with_query (FindAll Js.Null Live) st))) as Hw.
  { unfold checkStreamDurations, try_catch, bind, get, call_findAll. simpl.
    rewrite Hsvc, H2. reflexivity. }
  split; [exact Hp |]. split; [exact Hw |].
  unfold exec. rewrite Hp, Hw. repeat split.
Qed.

End Repository.

(** [rejected_query_ends_tick] at work on a model that is busy. *)
Lemma rejected_query_ends_tick_witness :
  engine_calls (exec (checkScheduledStreams Fixture.rt Fixture.broken)
                  (Fixture.ready Fixture.healthy))
    = engine_calls (Fixture.ready Fixture.healthy)
  /\ engine_calls (exec (checkStreamDurations Fixture.rt Fixture.broken)
                     (Fixture.ready Fixture.healthy))
     = engine_calls (Fixture.ready Fixture.healthy).
Proof.
  destruct (rejected_query_ends_tick Fixture.rt Fixture.broken
              (Fixture.ready Fixture.healthy) Fixture.healthy
              "SQLITE_BUSY" "SQLITE_BUSY")
    as (_ & _ & H1 & H2 & _).
  - vm_compute. reflexivity.
  - reflexivity.
  - reflexivity.
  - split; [exact H1 | exact H2].
Defined.

(** ** A timer closure suspended at its await *)

#[local] Instance keeps_fresh_preorder : PreOrder keeps_fresh.
Proof. split; [intros st H; exact H | intros a b c Hab Hbc H; auto]. Qed.

Lemma fresh_initial : fresh initial_state.
Proof. split; simpl; intros; simplify_map_eq. Qed.

(** A step that adds neither a timer nor an entry and keeps the next handle
    keeps every handle issued. *)
Lemma fresh_shrinks (st st' : State) :
  timers st' ⊆ timers st ->
  scheduledTerminations st' ⊆ scheduledTerminations st ->
  next_timer st' = next_timer st ->
  keeps_fresh st st'.
Proof.
  intros Ht Hr Hn [H1 H2]. split; rewrite Hn.
  - intros h t Hl. eapply H1, lookup_weaken; eassumption.
  - intros i h Hl. eapply H2, lookup_weaken; eassumption.
Qed.

Lemma fresh_console (e : LogEvent) (st : State) : keeps_fresh st (with_console e st).
Proof. apply fresh_shrinks; reflexivity. Qed.

Lemma fresh_call (c : EngineCall) (st : State) : keeps_fresh st (with_call c st).
Proof. apply fresh_shrinks; reflexivity. Qed.

Lemma fresh_query (q : Query) (st : State) : keeps_fresh st (with_query q st).
Proof. apply fresh_shrinks; reflexivity. Qed.

Lemma fresh_clock (st : State) : keeps_fresh st (with_clock_read st).
Proof. apply fresh_shrinks; reflexivity. Qed.

Section Interleaving.

Context (rt : Runtime).

Lemma fresh_scheduleStreamTermination (i : StreamId) (v : Js.Val) :
  stable keeps_fresh (scheduleStreamTermination rt i v).
Proof.
  intros st Hst. unfold exec.
  destruct (streamingService st) as [svc |] eqn:Hsvc.
  - destruct v as [| | b | d | s];
      try (unfold scheduleStreamTermination, bind, get; rewrite Hsvc; simpl;
           apply fresh_console; exact Hst).
    destruct (PrimFloat.is_nan d) eqn:Hnan.
    + unfold scheduleStreamTermination, bind, get. rewrite Hsvc. simpl.
      rewrite Hnan. simpl. apply fresh_console; exact Hst.
    + rewrite (scheduleStreamTermination_arms rt st svc i d Hsvc Hnan). simpl.
      destruct Hst as [H1 H2]. split; simpl.
      * intros h' t' Hl. apply lookup_insert_Some in Hl as [[<- _] | [_ Hl]]; [lia |].
        destruct (scheduledTerminations st !! i); simpl in Hl;
          [apply lookup_delete_Some in Hl as [_ Hl] |];
          apply H1 in Hl; lia.
      * intros i' h' Hl. apply lookup_insert_Some in Hl as [[_ <-] | [_ Hl]]; [lia |].
        destruct (scheduledTerminations st !! i); simpl in Hl;
          apply H2 in Hl; lia.
  - unfold scheduleStreamTermination, bind, get. rewrite Hsvc. simpl.
    apply fresh_console; exact Hst.
Qed.

Lemma fresh_cancelStreamTermination (i : StreamId) :
  stable keeps_fresh (cancelStreamTermination i).
Proof.
  intros st. unfold exec, cancelStreamTermination, bind, get. simpl.
  destruct (scheduledTerminations st !! i) as [h |]; simpl; [| reflexivity].
  apply fresh_shrinks; simpl; try reflexivity; apply delete_subseteq.
Qed.

Lemma fresh_closure_begins (h : TimerId) (st : State) :
  keeps_fresh st (closure_begins h st).
Proof.
  unfold closure_begins. destruct (timers st !! h) as [t |]; [| reflexivity].
  simpl. destruct (streamingService st);
    apply fresh_shrinks; simpl; try reflexivity; apply delete_subseteq.
Qed.

Lemma fresh_closure_resumes (i : StreamId) (answer : Settled EngineResult)
    (st : State) :
  keeps_fresh st (closure_resumes i answer st).
Proof.
  destruct answer as [r | e]; simpl; [| apply fresh_console].
  apply fresh_shrinks; simpl; try reflexivity; apply delete_subseteq.
Qed.

(** [fire] is the two halves of the closure, the second run with the answer
    of the stop call as soon as the first is over. *)
Lemma fire_in_two_halves (st : State) (svc : StreamingService) (h : TimerId)
    (t : Timer) :
  streamingService st = Some svc ->
  timers st !! h = Some t ->
  exec (fire h) st =
    closure_resumes (timer_stream t)
      (stopStream svc (engine_calls st) (timer_stream t))
      (closure_begins h st).
Proof.
  intros Hsvc Ht. unfold exec, closure_begins. rewrite Ht. simpl. rewrite Hsvc.
  destruct (stopStream svc (engine_calls st) (timer_stream t)) as [r | e] eqn:Hstop.
  - rewrite (fire_resolved st svc h t r Hsvc Ht Hstop). reflexivity.
  - rewrite (fire_rejected st svc h t e Hsvc Ht Hstop). reflexivity.
Qed.

Lemma fresh_fire (h : TimerId) : stable keeps_fresh (fire h).
Proof.
  intros st. destruct (timers st !! h) as [t |] eqn:Ht.
  - destruct (streamingService st) as [svc |] eqn:Hsvc.
    + rewrite (fire_in_two_halves st svc h t Hsvc Ht).
      etransitivity; [apply fresh_closure_begins | apply fresh_closure_resumes].
    + unfold exec, fire, bind, get, terminate, try_catch, bind, call_stopStream.
      simpl. rewrite Ht. simpl. rewrite Hsvc. simpl.
      apply fresh_shrinks; simpl; try reflexivity; apply delete_subseteq.
  - unfold exec, fire, bind, get. simpl. rewrite Ht. reflexivity.
Qed.

Lemma fresh_checkScheduledStreams (db : StreamModel) :
  stable keeps_fresh (checkScheduledStreams rt db).
Proof.
  apply (ambient_checkScheduledStreams rt (R := keeps_fresh)); intros.
  - apply fresh_console.
  - apply fresh_clock.
  - apply fresh_query.
  - apply fresh_call.
Qed.

Lemma fresh_checkStreamDurations (db : StreamModel) :
  stable keeps_fresh (checkStreamDurations rt db).
Proof.
  apply (ambient_checkStreamDurations rt (R := keeps_fresh)); intros.
  - apply fresh_console.
  - apply fresh_clock.
  - apply fresh_query.
  - apply fresh_call.
  - apply fresh_scheduleStreamTermination.
Qed.

Lemma fresh_init (svc : StreamingService) (db : StreamModel) :
  stable keeps_fresh (init rt svc db).
Proof.
  unfold init, console_log.
  apply stable_bind; [apply stable_get |]. intros [|].
  - apply stable_modify, fresh_console.
  - apply stable_bind;
      [apply stable_modify; intros st; apply fresh_shrinks; reflexivity |].
    intros _.
    apply stable_bind; [apply stable_modify, fresh_console |]. intros _.
    apply stable_bind;
      [apply stable_modify; intros st; apply fresh_shrinks; reflexivity |].
    intros _.
    apply stable_bind; [apply fresh_checkScheduledStreams |]. intros _.
    apply fresh_checkStreamDurations.
Qed.

Lemma fresh_happen (m : Moment) (st : State) :
  fresh st -> fresh (happen rt m st).
Proof.
  destruct m as [ev | h | i answer]; simpl.
  - destruct ev; simpl.
    + apply fresh_init.
    + apply fresh_checkScheduledStreams.
    + apply fresh_checkStreamDurations.
    + apply fresh_fire.
    + apply fresh_scheduleStreamTermination.
    + apply fresh_cancelStreamTermination.
    + apply fresh_cancelStreamTermination.
  - apply fresh_closure_begins.
  - apply fresh_closure_resumes.
Qed.

(** However the halves of timer closures fall among the other events, the
    handle of an entry and the handle of a pending timer were issued: they
    are below the next handle, which is what re-arming needs. *)
Lemma fresh_interleaved (ms : list Moment) (st : State) :
  fresh st -> fresh (interleaved rt ms st).
Proof.
  revert st. induction ms as [| m ms IH]; intros st Hst; simpl.
  - exact Hst.
  - apply IH, fresh_happen, Hst.
Qed.

End Interleaving.

(** An arm made while the closure of "A" waits for its stop call. When the
    closure resumes, it removes the entry of "A", by now that of the new
    timer, which stays pending. The next arm finds no entry and cancels
    nothing: two timers are then pending for "A", one of them under no
    entry. *)
Lemma arm_during_await_orphans_timer :
  timers
    (interleaved Fixture.rt
       [Whole (Arm "A" (Js.Num 10)); Begins 0; Whole (Arm "A" (Js.Num 5));
        Resumes "A" (Resolved Fixture.ok); Whole (Arm "A" (Js.Num 7))]
       (Fixture.ready Fixture.healthy))
    = {[ 1 := {| timer_stream := "A"; timer_minutes := 5; timer_delay := 300000 |};
         2 := {| timer_stream := "A"; timer_minutes := 7; timer_delay := 420000 |} ]}
  /\ scheduledTerminations
       (interleaved Fixture.rt
          [Whole (Arm "A" (Js.Num 10)); Begins 0; Whole (Arm "A" (Js.Num 5));
           Resumes "A" (Resolved Fixture.ok); Whole (Arm "A" (Js.Num 7))]
          (Fixture.ready Fixture.healthy))
     = {[ "A" := 2 ]}.
Proof. split; vm_compute; reflexivity. Qed.

(** ** Arming, cancelling and firing together *)

Section Lifecycle.

Context (rt : Runtime).

(** X7: cancelling undoes arming: from a reachable state where [i] has no
    entry, arming [i] and then cancelling it returns true and gives back the
    registry and the queue of timers as they were; the service is not
    called. *)
Theorem cancel_undoes_arm (st : State) (svc : StreamingService)
    (i : StreamId) (d : float) :
  reachable rt st ->
  streamingService st = Some svc ->
  scheduledTerminations st !! i = None ->
  PrimFloat.is_nan d = false ->
  exists st1 st2,
    scheduleStreamTermination rt i (Js.Num d) st = (Normal tt, st1)
    /\ scheduledTerminations st1 !! i = Some (next_timer st)
    /\ cancelStreamTermination i st1 = (Normal true, st2)
    /\ scheduledTerminations st2 = scheduledTerminations st
    /\ timers st2 = timers st
    /\ engine_calls st2 = engine_calls st.
Proof.
  intros Hreach Hsvc Hnone Hnan.
  pose proof (reachable_coherent rt st Hreach) as Hc.
  assert (timers st !! next_timer st = None) as Hfresh.
  { destruct (timers st !! next_timer st) as [t |] eqn:Ht; [| reflexivity].
    apply (timer_below_next st Hc) in Ht. lia. }
  rewrite (scheduleStreamTermination_arms rt st svc i d Hsvc Hnan), Hnone.
  eexists _, _. split; [reflexivity |]. simpl.
  split; [apply lookup_insert_eq |].
  unfold cancelStreamTermination, bind, get. simpl.
  rewrite lookup_insert_eq. simpl.
  split; [reflexivity |]. simpl.
  split; [apply delete_insert_id; exact Hnone |].
  split; [apply delete_insert_id; exact Hfresh | reflexivity].
Qed.

(** X8: after a stop notification for [i], whatever the state: [i] has no
    entry, a second notification returns false and changes nothing, and the
    delayed action that was registered for [i] is no longer pending, so
    that its handle coming due does nothing. If the pending actions for [i]
    were only the registered one, none is pending for [i] any more and,
    whichever timer comes due next, the service is not asked to stop [i]. *)
Theorem no_stop_after_notification (st : State) (i : StreamId) :
  scheduledTerminations (exec (handleStreamStopped i) st) !! i = None
  /\ handleStreamStopped i (exec (handleStreamStopped i) st)
     = (Normal false, exec (handleStreamStopped i) st)
  /\ (forall h, scheduledTerminations st !! i = Some h ->
        timers (exec (handleStreamStopped i) st) !! h = None
        /\ fire h (exec (handleStreamStopped i) st)
           = (Normal tt, exec (handleStreamStopped i) st))
  /\ (only_registered i st ->
      (forall h t, timers (exec (handleStreamStopped i) st) !! h = Some t ->
         timer_stream t <> i)
      /\ forall h, exists calls,
           engine_calls (exec (fire h) (exec (handleStreamStopped i) st))
             = engine_calls (exec (handleStreamStopped i) st) ++ calls
           /\ CallStop i ∉ calls).
Proof.
  set (st' := exec (handleStreamStopped i) st).
  assert (scheduledTerminations st' !! i = None) as Hnone.
  { unfold st', exec, handleStreamStopped, cancelStreamTermination, bind, get. simpl.
    destruct (scheduledTerminations st !! i) as [h |] eqn:Hi; simpl;
      [apply lookup_delete_eq | exact Hi]. }
  split; [exact Hnone |].
  split.
  { unfold handleStreamStopped, cancelStreamTermination, bind, get. simpl.
    rewrite Hnone. reflexivity. }
  split.
  { intros h Hi.
    assert (timers st' !! h = None) as Hgone.
    { unfold st', exec, handleStreamStopped, cancelStreamTermination, bind, get.
      simpl. rewrite Hi. simpl. apply lookup_delete_eq. }
    split; [exact Hgone |].
    unfold fire, bind, get. simpl. rewrite Hgone. reflexivity. }
  intros Hone.
  assert (forall h t, timers st' !! h = Some t -> timer_stream t <> i) as Htimers.
  { intros h t Ht Heq. revert Ht.
    unfold st', exec, handleStreamStopped, cancelStreamTermination, bind, get. simpl.
    destruct (scheduledTerminations st !! i) as [h0 |] eqn:Hi; simpl.
    - intros Ht. apply lookup_delete_Some in Ht as [Hne Ht].
      pose proof (Hone h t Ht Heq) as Hr. congruence.
    - intros Ht. pose proof (Hone h t Ht Heq) as Hr. congruence. }
  split; [exact Htimers |].
  intros h. unfold exec at 1, fire, bind, get. simpl.
  destruct (timers st' !! h) as [t |] eqn:Ht; simpl.
  - unfold terminate, try_catch, bind, console_log, console_error, modify,
      call_stopStream. simpl.
    destruct (streamingService st') as [svc |]; simpl.
    + exists [CallStop (timer_stream t)]. split.
      * destruct (stopStream svc (engine_calls st') (timer_stream t)); reflexivity.
      * intros Hin. apply list_elem_of_singleton in Hin.
        injection Hin as Heq. apply (Htimers h t Ht). symmetry. exact Heq.
    + exists []. split; [symmetry; apply app_nil_r | apply not_elem_of_nil].
  - exists []. split; [symmetry; apply app_nil_r | apply not_elem_of_nil].
Qed.

(** X9: when a pending timer comes due and the stop settles, with whatever
    result, the service was asked once to stop the timer's stream, the timer
    is no longer pending, no other pending timer is touched and the stream
    has no entry any more, whichever handle its entry held. If the pending
    timers of the stream were only the registered one, none is pending for
    it afterwards. *)
Theorem fire_clears_stream (st : State) (svc : StreamingService) (h : TimerId)
    (t : Timer) (r : EngineResult) :
  streamingService st = Some svc ->
  timers st !! h = Some t ->
  stopStream svc (engine_calls st) (timer_stream t) = Resolved r ->
  exists st',
    fire h st = (Normal tt, st')
    /\ engine_calls st' = engine_calls st ++ [CallStop (timer_stream t)]
    /\ scheduledTerminations st' !! timer_stream t = None
    /\ (forall i, i <> timer_stream t ->
          scheduledTerminations st' !! i = scheduledTerminations st !! i)
    /\ timers st' !! h = None
    /\ (forall h', h' <> h -> timers st' !! h' = timers st !! h')
    /\ (only_registered (timer_stream t) st ->
        forall h' t', timers st' !! h' = Some t' -> timer_stream t' <> timer_stream t).
Proof.
  intros Hsvc Ht Hstop.
  rewrite (fire_resolved st svc h t r Hsvc Ht Hstop).
  eexists. split; [reflexivity |]. simpl.
  split; [reflexivity |].
  split; [apply lookup_delete_eq |].
  split; [intros i Hi; apply lookup_delete_ne; congruence |].
  split; [apply lookup_delete_eq |].
  split; [intros h' Hh; apply lookup_delete_ne; congruence |].
  intros Hone h' t' Ht' Heq.
  apply lookup_delete_Some in Ht' as [Hne Ht'].
  pose proof (Hone h' t' Ht' Heq) as Hr'.
  pose proof (Hone h t Ht eq_refl) as Hr. congruence.
Qed.

End Lifecycle.

(** [cancel_undoes_arm] at work: "B" is armed and cancelled while "A" stays
    armed. *)
Lemma cancel_undoes_arm_witness :
  exists st1 st2,
    scheduleStreamTermination Fixture.rt "B" (Js.Num 5) (Fixture.armed Fixture.healthy)
      = (Normal tt, st1)
    /\ cancelStreamTermination "B" st1 = (Normal true, st2)
    /\ scheduledTerminations st2 = scheduledTerminations (Fixture.armed Fixture.healthy)
    /\ timers st2 = timers (Fixture.armed Fixture.healthy).
Proof.
  destruct (cancel_undoes_arm Fixture.rt (Fixture.armed Fixture.healthy)
              Fixture.healthy "B" 5)
    as (st1 & st2 & Harm & _ & Hcancel & Hreg & Htim & _).
  - exists [Init Fixture.healthy (Stream_over []); Arm "A" (Js.Num 10)]. reflexivity.
  - vm_compute. reflexivity.
  - vm_compute. reflexivity.
  - vm_compute. reflexivity.
  - exists st1, st2. auto.
Defined.

(** [no_stop_after_notification] at work: "A" is armed, then reported
    stopped; its timer coming due afterwards asks nothing of the service. *)
Lemma no_stop_after_notification_witness :
  scheduledTerminations
    (exec (handleStreamStopped "A") (Fixture.armed Fixture.healthy)) !! "A" = None
  /\ timers (exec (handleStreamStopped "A") (Fixture.armed Fixture.healthy)) !! 0 = None
  /\ (forall h t,
        timers (exec (handleStreamStopped "A") (Fixture.armed Fixture.healthy)) !! h
          = Some t ->
        timer_stream t <> "A")
  /\ engine_calls
       (exec (fire 0) (exec (handleStreamStopped "A") (Fixture.armed Fixture.healthy)))
     = engine_calls (exec (handleStreamStopped "A") (Fixture.armed Fixture.healthy)).
Proof.
  destruct (no_stop_after_notification (Fixture.armed Fixture.healthy) "A")
    as (Hnone & _ & Hgone & Hone).
  split; [exact Hnone |].
  split; [apply (Hgone 0); vm_compute; reflexivity |].
  split; [| vm_compute; reflexivity].
  apply Hone. intros h t Hl _.
  assert (timers (Fixture.armed Fixture.healthy)
          = {[ 0 := {| timer_stream := "A"; timer_minutes := 10;
                       timer_delay := 600000 |} ]}) as Htimers
    by (vm_compute; reflexivity).
  rewrite Htimers in Hl. apply lookup_singleton_Some in Hl as [<- _].
  vm_compute. reflexivity.
Defined.

(** [fire_clears_stream] at work: the timer of "A" comes due and the stop
    succeeds. *)
Lemma fire_clears_stream_witness :
  exists st',
    fire 0 (Fixture.armed Fixture.healthy) = (Normal tt, st')
    /\ engine_calls st' = [CallStop "A"]
    /\ scheduledTerminations st' !! "A" = None
    /\ timers st' !! 0 = None.
Proof.
  destruct (fire_clears_stream (Fixture.armed Fixture.healthy)
              Fixture.healthy 0
              {| timer_stream := "A"; timer_minutes := 10; timer_delay := 600000 |}
              Fixture.ok)
    as (st' & Hrun & Hcalls & Hnone & _ & Hgone & _).
  - vm_compute. reflexivity.
  - vm_compute. reflexivity.
  - reflexivity.
  - exists st'. split; [exact Hrun |]. split; [exact Hcalls |].
    split; [exact Hnone | exact Hgone].
Defined.

(** ** Delays and dates at the edges *)

(** A number above zero is not NaN, and [Math.max(0, d)] is [d] itself. *)
Lemma Math_max_positive (d : float) :
  (0 <? d)%float = true -> PrimFloat.is_nan d = false /\ Js.Math_max 0 d = d.
Proof.
  intros H.
  assert (PrimFloat.is_nan d = false) as Hnan.
  { rewrite FloatAxioms.ltb_spec in H.
    unfold PrimFloat.is_nan. rewrite FloatAxioms.eqb_spec. unfold SFeqb.
    destruct (Prim2SF d) eqn:E; try discriminate H;
      rewrite SFcompare_refl by discriminate; reflexivity. }
  split; [exact Hnan |].
  unfold Js.Math_max. rewrite Hnan, H. reflexivity.
Qed.

(** Anything computed from NaN by a subtraction and a division is NaN. *)
Lemma nan_sub_div (y z : float) : PrimFloat.is_nan ((nan - y) / z)%float = true.
Proof.
  unfold PrimFloat.is_nan.
  rewrite FloatAxioms.eqb_spec, FloatAxioms.div_spec, FloatAxioms.sub_spec.
  reflexivity.
Qed.

Lemma Date_le_invalid (d : Date) : Date_le InvalidDate d = false.
Proof. unfold Date_le. rewrite FloatAxioms.leb_spec. reflexivity. Qed.

Section Edges.

Context (rt : Runtime).

(** X10: a delay above zero is armed as given: the delayed action is queued for
    [d * 60 * 1000] milliseconds, +Infinity included, and the registry
    records its handle. *)
Theorem scheduleStreamTermination_keeps_positive (st : State)
    (svc : StreamingService) (i : StreamId) (d : float) :
  streamingService st = Some svc ->
  (0 <? d)%float = true ->
  exists st',
    scheduleStreamTermination rt i (Js.Num d) st = (Normal tt, st')
    /\ scheduledTerminations st' !! i = Some (next_timer st)
    /\ timers st' !! next_timer st =
         Some {| timer_stream := i;
                 timer_minutes := d;
                 timer_delay := (d * 60 * 1000)%float |}
    /\ console st' = console st ++ [LogScheduling i d].
Proof.
  intros Hsvc Hd. destruct (Math_max_positive d Hd) as [Hnan Hmax].
  rewrite (scheduleStreamTermination_arms rt st svc i d Hsvc Hnan), Hmax.
  eexists. split; [reflexivity |]. simpl.
  split; [apply lookup_insert_eq |].
  split; [apply lookup_insert_eq |].
  destruct (scheduledTerminations st !! i); reflexivity.
Qed.

(** X11: a live broadcast whose expiry cannot be computed (its start time or its
    duration does not convert to a number, so that [shouldEndAt] is the
    Invalid Date) is neither stopped nor armed by the watchdog: the tick
    reads the clock, hands NaN to [scheduleStreamTermination], which logs
    the invalid duration, and goes on. *)
Theorem invalid_expiry_is_only_logged (s : Stream) (st : State)
    (svc : StreamingService) :
  streamingService st = Some svc ->
  Js.truthy (duration s) = true ->
  Js.truthy (start_time s) = true ->
  scheduledTerminations st !! id s = None ->
  expiry rt s = InvalidDate ->
  exists v,
    check_duration rt s st =
      (Normal tt, with_console (ErrInvalidDuration (id s) v) (with_clock_read st))
    /\ Js.Number_isNaN v = true.
Proof.
  intros Hsvc Hd Hs Hnone Hexp.
  exists (Js.Num ((nan - getTime (DateAt (clock rt (clock_reads st)))) / 60000)%float).
  split; [| apply nan_sub_div].
  unfold check_duration, bind, get, Date_now. simpl.
  rewrite Hd, Hs, Hnone. simpl. fold (expiry rt s). rewrite Hexp.
  rewrite Date_le_invalid. simpl.
  unfold scheduleStreamTermination, bind, get. simpl. rewrite Hsvc.
  pose proof (nan_sub_div (Js.of_Z (clock rt (clock_reads st))) 60000) as Hnan.
  simpl in Hnan. rewrite Hnan. reflexivity.
Qed.



End Edges.

(** [scheduleStreamTermination_keeps_positive] at work on a minute and a
    half. *)
Lemma scheduleStreamTermination_keeps_positive_witness :
  exists st',
    scheduleStreamTermination Fixture.rt "A" (Js.Num 1.5) (Fixture.ready Fixture.healthy)
      = (Normal tt, st')
    /\ timers st' !! 0 =
         Some {| timer_stream := "A"; timer_minutes := 1.5; timer_delay := 90000 |}.
Proof.
  destruct (scheduleStreamTermination_keeps_positive Fixture.rt
              (Fixture.ready Fixture.healthy) Fixture.healthy "A" 1.5)
    as (st' & Hrun & _ & Htimer & _).
  - reflexivity.
  - reflexivity.
  - exists st'. split; [exact Hrun | exact Htimer].
Defined.

(** [invalid_expiry_is_only_logged] at work on "X", whose start time the
    host cannot read. *)
Lemma invalid_expiry_is_only_logged_witness :
  exists v,
    check_duration Fixture.rt Fixture.live_X (Fixture.ready Fixture.healthy) =
      (Normal tt,
       with_console (ErrInvalidDuration "X" v)
         (with_clock_read (Fixture.ready Fixture.healthy)))
    /\ Js.Number_isNaN v = true.
Proof.
  apply (invalid_expiry_is_only_logged Fixture.rt Fixture.live_X
           (Fixture.ready Fixture.healthy) Fixture.healthy);
    vm_compute; reflexivity.
Defined.


(** ** What the watchdog keeps *)

#[local] Instance watchdog_frame_preorder : PreOrder watchdog_frame.
Proof.
  split.
  - intros st Hc. split; [exact Hc |]. split; [auto |]. split; [auto |].
    apply only_calls_frame. reflexivity.
  - intros a b c Hab Hbc Ha.
    destruct (Hab Ha) as (Hb & Hreg1 & Htim1 & l1 & Hc1 & P1).
    destruct (Hbc Hb) as (Hc & Hreg2 & Htim2 & l2 & Hc2 & P2).
    split; [exact Hc |]. split; [auto |]. split; [auto |].
    exists (l1 ++ l2). split; [rewrite Hc2, Hc1; symmetry; apply app_assoc |].
    apply Forall_app. split; [exact P1 |].
    eapply Forall_impl; [exact P2 |].
    intros call (i & -> & Hnone). exists i. split; [reflexivity |].
    destruct (scheduledTerminations a !! i) as [h |] eqn:Hi; [| reflexivity].
    apply Hreg1 in Hi. congruence.
Qed.


Section Kept.

Context (rt : Runtime).






End Kept.


(** ** A tick over overdue broadcasts *)

Section Overdue.

Context (rt : Runtime).



End Overdue.

